(** * scan-launcher-checker: the status probe, the active-job gate and the
      polling loop of [launcher-checker.ts], and the cancellation tool of
      [cancel-scan.ts], embedded and verified.

    The script talks to a GraphQL endpoint with [fetch].  The embedding keeps
    the remote side as an explicit [World]: the stream of answers the
    endpoint is going to give, and the log of what the script did (requests
    sent, pauses taken).  Asynchronous functions become computations in a
    small monad over that world which can return, throw, or run out of the
    fuel that bounds the [while] loop.  Console output is not modelled.

    Numbers are JavaScript doubles in the source; the configuration values
    and counters are modelled as integers ([Z]).  For the integral
    millisecond and attempt counts the script is configured with (positive
    integers below 2^53) the double arithmetic of the loop, including
    [Math.ceil] of the quotient, gives the same integers. *)

From Stdlib Require Import ZArith List String Bool Lia DecimalString.
Import ListNotations.
Local Open Scope string_scope.
Local Open Scope list_scope.
Local Open Scope Z_scope.
#[local] Set Warnings "-register-all".

(* ===================================================================== *)
(** ** JavaScript values as produced by [response.json()] *)
(* ===================================================================== *)

Inductive JSValue : Type :=
| JUndefined
| JNull
| JBool (b : bool)
| JNum (n : Z)
| JStr (s : string)
| JArr (items : list JSValue)
| JObj (fields : list (string * JSValue)).

(** A thrown [Error] object; only its [message] is ever read. *)
Record Error : Type := mkError { message : string }.

Definition is_nullish (v : JSValue) : bool :=
  match v with
  | JUndefined | JNull => true
  | _ => false
  end.

(** [v === null] and [v === false]. *)
Definition is_null (v : JSValue) : bool :=
  match v with JNull => true | _ => false end.

Definition is_false (v : JSValue) : bool :=
  match v with JBool false => true | _ => false end.

(** Truthiness, as used by [if (v)], [!v] and [v ? a : b]. *)
Definition truthy (v : JSValue) : bool :=
  match v with
  | JUndefined | JNull => false
  | JBool b => b
  | JNum n => negb (n =? 0)
  | JStr s => negb (String.eqb s "")
  | JArr _ | JObj _ => true
  end.

Fixpoint lookup (k : string) (fields : list (string * JSValue)) : JSValue :=
  match fields with
  | [] => JUndefined
  | (k', v) :: rest => if String.eqb k k' then v else lookup k rest
  end.

(** [v.k]: a [TypeError] on [null] and [undefined], the field of an object,
    [undefined] on anything else (none of the keys the script reads is a
    property of a primitive or of an array). *)
Definition get_prop (v : JSValue) (k : string) : Error + JSValue :=
  match v with
  | JUndefined =>
      inl (mkError ("Cannot read properties of undefined (reading '" ++ k ++ "')")%string)
  | JNull =>
      inl (mkError ("Cannot read properties of null (reading '" ++ k ++ "')")%string)
  | JObj fields => inr (lookup k fields)
  | _ => inr JUndefined
  end.

(** [v?.k] never throws. *)
Definition get_opt (v : JSValue) (k : string) : JSValue :=
  match get_prop v k with
  | inl _ => JUndefined
  | inr x => x
  end.

(** [a ?? b] *)
Definition nullish_or (a b : JSValue) : JSValue :=
  if is_nullish a then b else a.

(* ===================================================================== *)
(** ** The remote endpoint and the effects of the script *)
(* ===================================================================== *)

(** What the script sends: one of the three GraphQL operations. *)
Inductive Request : Type :=
| CheckScanInProgressQuery
| ScanAllMutation
| IsStillScanningQuery (scanID : JSValue).

(** An HTTP response: its status and its body parsed as JSON, [None] when
    the body is not JSON (then [response.json()] rejects). *)
Record Response : Type := mkResponse {
  status : Z;
  body : option JSValue
}.

Definition ok (r : Response) : bool :=
  (200 <=? status r) && (status r <=? 299).

(** The answer to one [fetch]: the promise rejects (no connection, DNS, ...)
    or resolves with a response. *)
Inductive FetchResult : Type :=
| NetworkError (msg : string)
| HttpResponse (r : Response).

Inductive Event : Type :=
| Fetch (req : Request)
| Sleep (ms : Z).

(** [incoming] is the stream of answers still to come, [incoming 0] being the
    answer to the next [fetch]; [events] is the log, newest first. *)
Record World : Type := mkWorld {
  incoming : nat -> FetchResult;
  events : list Event
}.

Inductive Completion (A : Type) : Type :=
| Returned (a : A)
| Thrown (e : Error)
| OutOfFuel.
Arguments Returned {A} a.
Arguments Thrown {A} e.
Arguments OutOfFuel {A}.

Definition M (A : Type) : Type := World -> Completion A * World.

Definition ret {A} (a : A) : M A := fun w => (Returned a, w).

Definition throw {A} (e : Error) : M A := fun w => (Thrown e, w).

Definition bind {A B} (m : M A) (k : A -> M B) : M B :=
  fun w =>
    match m w with
    | (Returned a, w') => k a w'
    | (Thrown e, w') => (Thrown e, w')
    | (OutOfFuel, w') => (OutOfFuel, w')
    end.

(** [try { m } catch (error) { handler error }] *)
Definition try_catch {A} (m : M A) (handler : Error -> M A) : M A :=
  fun w =>
    match m w with
    | (Thrown e, w') => handler e w'
    | other => other
    end.

Declare Scope js_scope.
Delimit Scope js_scope with js.
Notation "x <- m ;; k" := (bind m (fun x => k))
  (at level 61, m at next level, right associativity) : js_scope.
Notation "m ;; k" := (bind m (fun _ => k))
  (at level 61, right associativity) : js_scope.
Local Open Scope js_scope.

Definition lift {A} (r : Error + A) : M A :=
  match r with
  | inl e => throw e
  | inr a => ret a
  end.

Definition advance (ev : Event) (w : World) : World :=
  {| incoming := fun n => incoming w (S n); events := ev :: events w |}.

(** [await fetch(GRAPHQL_ENDPOINT, ...)] *)
Definition fetch (req : Request) : M Response :=
  fun w =>
    match incoming w 0 with
    | NetworkError msg => (Thrown (mkError msg), advance (Fetch req) w)
    | HttpResponse r => (Returned r, advance (Fetch req) w)
    end.

(** [await response.json()] *)
Definition json (r : Response) : M JSValue :=
  match body r with
  | Some v => ret v
  | None => throw (mkError "Unexpected token in JSON")
  end.

(** [await new Promise(resolve => setTimeout(resolve, ms))] *)
Definition sleep (ms : Z) : M unit :=
  fun w => (Returned tt, {| incoming := incoming w; events := Sleep ms :: events w |}).

Definition string_of_Z (z : Z) : string := NilZero.string_of_int (Z.to_int z).

Definition http_error (r : Response) : Error :=
  mkError ("HTTP error! status: " ++ string_of_Z (status r))%string.

(* ===================================================================== *)
(** ** [checkScanInProgress], [initiateScanning], [checkScanningStatus] *)
(* ===================================================================== *)

(** Declared [Promise<boolean>]; the value returned is whatever
    [data.data?.checkScanInProgress?.isInProgress] evaluates to. *)
Definition checkScanInProgress : M JSValue :=
  try_catch
    (response <- fetch CheckScanInProgressQuery ;;
     (if negb (ok response) then throw (http_error response) else ret tt) ;;
     data <- json response ;;
     data_data <- lift (get_prop data "data") ;;
     let isInProgress :=
       get_opt (get_opt data_data "checkScanInProgress") "isInProgress" in
     ret isInProgress)
    (fun error => ret (JBool true)).

Definition initiateScanning : M JSValue :=
  response <- fetch ScanAllMutation ;;
  (if negb (ok response) then throw (http_error response) else ret tt) ;;
  data <- json response ;;
  data_data <- lift (get_prop data "data") ;;
  let scanID := get_opt (get_opt data_data "scanAll") "scanID" in
  if negb (truthy scanID)
  then throw (mkError "Failed to get scanID from the response")
  else ret scanID.

(** The object [{ isStillScanning, error? }] a status probe resolves to. *)
Record StatusResult : Type := mkStatusResult {
  isStillScanning : JSValue;
  error : option string
}.

Definition checkScanningStatus (scanID : JSValue) : M StatusResult :=
  try_catch
    (response <- fetch (IsStillScanningQuery scanID) ;;
     (if negb (ok response) then throw (http_error response) else ret tt) ;;
     data <- json response ;;
     data_data <- lift (get_prop data "data") ;;
     info <- lift (get_prop data_data "getScannedAppsInfo") ;;
     ret {| isStillScanning := nullish_or (get_opt info "isStillScanning") JNull;
            error := None |})
    (fun error => ret {| isStillScanning := JNull; error := Some (message error) |}).

(* ===================================================================== *)
(** ** [pollUntilScanComplete] *)
(* ===================================================================== *)

(** The locals of the polling loop. *)
Record PollingState : Type := mkPollingState {
  attempts : Z;
  consecutiveNullResponses : Z;
  scanStarted : bool
}.

(** The object [{ success, status }] the polling function resolves to. *)
Record PollResult : Type := mkPollResult {
  success : bool;
  result_status : string
}.

Definition Completed : PollResult := mkPollResult true "completed".
Definition Cancelled : PollResult := mkPollResult false "cancelled".
Definition InitializationTimeout : PollResult :=
  mkPollResult false "initialization_timeout".
Definition MaxAttemptsReached : PollResult :=
  mkPollResult false "max_attempts_reached".

(** What one pass through the loop body does to the loop: fall through to
    the next test of the guard, or [return]. The locals at that point are
    kept in both cases, so that their final values can be spoken about. *)
Inductive Control : Type :=
| Continue (st : PollingState)
| Return (r : PollResult) (st : PollingState).

(** [Math.ceil(a / b)] on integers, for [b <> 0]. *)
Definition ceil_div (a b : Z) : Z := - ((- a) / b).

Definition initial_state : PollingState :=
  {| attempts := 0; consecutiveNullResponses := 0; scanStarted := false |}.

Section Polling.

Variable scanID : JSValue.
Variables maxAttempts intervalMs initializationTimeoutMs : Z.

Definition maxConsecutiveNullResponses : Z :=
  ceil_div initializationTimeoutMs intervalMs.

(** The body of the [while] loop. *)
Definition poll_iteration (st : PollingState) : M Control :=
  let attempts' := attempts st + 1 in
  statusResult <- checkScanningStatus scanID ;;
  if is_null (isStillScanning statusResult) then
    let consecutive' := consecutiveNullResponses st + 1 in
    let st' := {| attempts := attempts';
                  consecutiveNullResponses := consecutive';
                  scanStarted := scanStarted st |} in
    if scanStarted st then
      ret (Return Cancelled st')
    else if maxConsecutiveNullResponses <=? consecutive' then
      ret (Return InitializationTimeout st')
    else
      sleep intervalMs ;;
      ret (Continue st')
  else if is_false (isStillScanning statusResult) then
    ret (Return Completed
           {| attempts := attempts';
              consecutiveNullResponses := consecutiveNullResponses st;
              scanStarted := scanStarted st |})
  else
    sleep intervalMs ;;
    ret (Continue {| attempts := attempts';
                     consecutiveNullResponses := 0;
                     scanStarted := true |}).

(** [while (attempts < maxAttempts) { ... } return max_attempts_reached].
    The loop is bounded by [fuel]; running out of it is [OutOfFuel]. *)
Fixpoint poll_loop (fuel : nat) (st : PollingState) : M (PollResult * PollingState) :=
  if attempts st <? maxAttempts then
    match fuel with
    | O => fun w => (OutOfFuel, w)
    | S fuel' =>
        c <- poll_iteration st ;;
        match c with
        | Continue st' => poll_loop fuel' st'
        | Return r st' => ret (r, st')
        end
    end
  else ret (MaxAttemptsReached, st).

(** The result comes with the final values of the locals. [maxAttempts]
    passes through the loop are all the guard allows, so that much fuel
    is enough: the function always returns ([session_trace] below). *)
Definition pollUntilScanComplete : M (PollResult * PollingState) :=
  poll_loop (Z.to_nat maxAttempts) initial_state.

End Polling.

(* ===================================================================== *)
(** ** [main] *)
(* ===================================================================== *)

(** The three settings read from the environment; [None] when the variable
    is unset or not a number. *)
Record Env : Type := mkEnv {
  MAX_POLL_ATTEMPTS : option Z;
  POLL_INTERVAL_MS : option Z;
  INITIALIZATION_TIMEOUT_MS : option Z
}.

(** [Number(Deno.env.get(name)) || default] *)
Definition number_or (setting : option Z) (default : Z) : Z :=
  match setting with
  | Some n => if n =? 0 then default else n
  | None => default
  end.

Definition main (env : Env) : M unit :=
  try_catch
    (scanInProgress <- checkScanInProgress ;;
     if truthy scanInProgress then ret tt
     else
       scanID <- initiateScanning ;;
       result <- pollUntilScanComplete scanID
                   (number_or (MAX_POLL_ATTEMPTS env) 100)
                   (number_or (POLL_INTERVAL_MS env) 30000)
                   (number_or (INITIALIZATION_TIMEOUT_MS env) 300000) ;;
       ret tt)
    (fun error => ret tt).

(* ===================================================================== *)
(** ** Vocabulary of the specification *)
(* ===================================================================== *)

(** The three-valued observation the loop makes of a probe result: the
    order of the tests is that of the loop's [if] chain. *)
Inductive Observation : Type := Running | Finished | Indeterminate.

Definition classify (v : JSValue) : Observation :=
  if is_null v then Indeterminate
  else if is_false v then Finished
  else Running.

(** The observation a probe makes when the endpoint answers [f]; the scan
    identifier has no part in it. *)
Definition observe (f : FetchResult) : Observation :=
  match fst (checkScanningStatus JUndefined (mkWorld (fun _ => f) [])) with
  | Returned r => classify (isStillScanning r)
  | _ => Indeterminate
  end.

(** The [i]-th observation (from 0) of a session started in world [w]. *)
Definition observation (w : World) (i : nat) : Observation :=
  observe (incoming w i).

Definition observations (w : World) (k : nat) : list Observation :=
  map (observation w) (seq 0 k).

Definition is_indeterminate (o : Observation) : bool :=
  match o with Indeterminate => true | _ => false end.

Definition is_running (o : Observation) : bool :=
  match o with Running => true | _ => false end.

Definition is_finished (o : Observation) : bool :=
  match o with Finished => true | _ => false end.

(** Length of the longest prefix of indeterminate observations. *)
Fixpoint leading_indeterminate (l : list Observation) : Z :=
  match l with
  | Indeterminate :: rest => 1 + leading_indeterminate rest
  | _ => 0
  end.

(** Length of the longest suffix of indeterminate observations. *)
Definition trailing_indeterminate (l : list Observation) : Z :=
  leading_indeterminate (rev l).

Definition is_fetch (ev : Event) : bool :=
  match ev with Fetch _ => true | Sleep _ => false end.

(** Number of requests in a log. *)
Definition fetch_count (evs : list Event) : Z :=
  Z.of_nat (List.length (filter is_fetch evs)).

Section Session.

Variable scanID : JSValue.
Variables maxAttempts intervalMs initializationTimeoutMs : Z.

(** The locals and the world after [k] passes through the loop body that
    all fell through to the guard; [None] when the session has returned
    or the guard has failed before that. *)
Fixpoint state_after (k : nat) (w0 : World) : option (PollingState * World) :=
  match k with
  | O => Some (initial_state, w0)
  | S k' =>
      match state_after k' w0 with
      | Some (st, w) =>
          if attempts st <? maxAttempts then
            match poll_iteration scanID intervalMs initializationTimeoutMs st w with
            | (Returned (Continue st'), w') => Some (st', w')
            | _ => None
            end
          else None
      | None => None
      end
  end.

End Session.

(** Answers of the endpoint used in examples. *)
Definition answer (v : JSValue) : FetchResult :=
  HttpResponse (mkResponse 200
    (Some (JObj [("data", JObj [("getScannedAppsInfo",
                                  JObj [("isStillScanning", v)])])]))).

Definition no_record : FetchResult :=
  HttpResponse (mkResponse 200 (Some (JObj [("data", JObj [("getScannedAppsInfo", JNull)])]))).

(** A world that gives the listed answers, then [rest] forever. *)
Definition world_of (l : list FetchResult) (rest : FetchResult) : World :=
  mkWorld (fun n => nth n l rest) [].

(** The value the endpoint reports at [data.getScannedAppsInfo.isStillScanning],
    [undefined] when a step on the way to it is missing. *)
Definition status_field (f : FetchResult) : JSValue :=
  match f with
  | NetworkError _ => JUndefined
  | HttpResponse r =>
      match body r with
      | Some j =>
          get_opt (get_opt (get_opt j "data") "getScannedAppsInfo") "isStillScanning"
      | None => JUndefined
      end
  end.

(** The ways a probe fails to obtain a status: the request does not go
    through, the HTTP status is an error, the body is not JSON, or the body
    holds no status (no [data], no record, no or a null status field). *)
Definition probe_failed (f : FetchResult) : bool :=
  match f with
  | NetworkError _ => true
  | HttpResponse r =>
      negb (ok r) ||
      match body r with
      | Some _ => is_nullish (status_field f)
      | None => true
      end
  end.

(** The world after a probe for [scanID], and after a pause. *)
Definition probed (scanID : JSValue) (w : World) : World :=
  advance (Fetch (IsStillScanningQuery scanID)) w.

Definition paused (ms : Z) (w : World) : World :=
  mkWorld (incoming w) (Sleep ms :: events w).

(** The locals after the counters have been bumped for an indeterminate
    observation, for a finished one, and for a running one. *)
Definition after_indeterminate (st : PollingState) : PollingState :=
  {| attempts := attempts st + 1;
     consecutiveNullResponses := consecutiveNullResponses st + 1;
     scanStarted := scanStarted st |}.

Definition after_finished (st : PollingState) : PollingState :=
  {| attempts := attempts st + 1;
     consecutiveNullResponses := consecutiveNullResponses st;
     scanStarted := scanStarted st |}.

Definition after_running (st : PollingState) : PollingState :=
  {| attempts := attempts st + 1;
     consecutiveNullResponses := 0;
     scanStarted := true |}.

(** The only things a session does: probe for its own scan, and pause
    for the configured interval. *)
Definition session_event (scanID : JSValue) (intervalMs : Z) (ev : Event) : Prop :=
  ev = Fetch (IsStillScanningQuery scanID) \/ ev = Sleep intervalMs.

(** What holds of the locals [st] and the world [w] of a session started in
    [w0], whenever the guard of the loop is about to be tested for the
    [k+1]-th time. *)
Record polling_inv (scanID : JSValue) (maxAttempts intervalMs initializationTimeoutMs : Z)
    (w0 : World) (k : nat) (st : PollingState) (w : World) : Prop := {
  inv_attempts : attempts st = Z.of_nat k;
  inv_budget : Z.of_nat k <= Z.max 0 maxAttempts;
  inv_consecutive :
    consecutiveNullResponses st = trailing_indeterminate (observations w0 k);
  inv_started : scanStarted st = existsb is_running (observations w0 k);
  inv_unfinished : existsb is_finished (observations w0 k) = false;
  inv_waiting :
    k <> 0%nat -> scanStarted st = false ->
    consecutiveNullResponses st
      < maxConsecutiveNullResponses intervalMs initializationTimeoutMs;
  inv_incoming : forall n, incoming w n = incoming w0 (k + n);
  inv_events :
    exists new,
      events w = new ++ events w0
      /\ fetch_count new = Z.of_nat k
      /\ Forall (session_event scanID intervalMs) new
}.

(** How a session started in [w0] ends when it has come to locals [st] and
    world [w]: the guard fails, or the next pass through the body returns. *)
Definition session_ending (scanID : JSValue)
    (maxAttempts intervalMs initializationTimeoutMs : Z)
    (w0 : World) (st : PollingState) (w : World) : Prop :=
  (maxAttempts <= attempts st
   /\ pollUntilScanComplete scanID maxAttempts intervalMs initializationTimeoutMs w0
      = (Returned (MaxAttemptsReached, st), w))
  \/ (attempts st < maxAttempts
      /\ exists r st',
          poll_iteration scanID intervalMs initializationTimeoutMs st w
            = (Returned (Return r st'), probed scanID w)
          /\ attempts st' = attempts st + 1
          /\ pollUntilScanComplete scanID maxAttempts intervalMs
               initializationTimeoutMs w0
             = (Returned (r, st'), probed scanID w)).

(** An answer in which the server reports an error the GraphQL way: HTTP
    200, an [errors] array, and [data: null]. *)
Definition graphql_error : FetchResult :=
  HttpResponse (mkResponse 200
    (Some (JObj [("errors", JArr [JObj [("message", JStr "Unauthorized")]]);
                 ("data", JNull)]))).

Definition unreachable : FetchResult := NetworkError "connection refused".

Definition default_env : Env := mkEnv None None None.

(** Pauses in a log: how many, and how long in all. *)
Definition is_sleep (ev : Event) : bool :=
  match ev with Sleep _ => true | Fetch _ => false end.

Definition sleep_count (evs : list Event) : Z :=
  Z.of_nat (List.length (filter is_sleep evs)).

Fixpoint total_sleep (evs : list Event) : Z :=
  match evs with
  | [] => 0
  | Sleep ms :: rest => ms + total_sleep rest
  | Fetch _ :: rest => total_sleep rest
  end.

(** The fields the gate and the start of a scan read in a JSON body. *)
Definition in_progress_field (j : JSValue) : JSValue :=
  get_opt (get_opt (get_opt j "data") "checkScanInProgress") "isInProgress".

Definition scan_id_field (j : JSValue) : JSValue :=
  get_opt (get_opt (get_opt j "data") "scanAll") "scanID".

(** The answers on which starting a scan fails: the request does not go
    through, the HTTP status is an error, the body is not JSON, or it holds
    no usable [data.scanAll.scanID]. *)
Definition start_failed (f : FetchResult) : bool :=
  match f with
  | NetworkError _ => true
  | HttpResponse r =>
      negb (ok r) ||
      match body r with
      | Some j => negb (truthy (scan_id_field j))
      | None => true
      end
  end.

(** What the loop body does with the locals, by the observation made. *)
Definition next_control (intervalMs initializationTimeoutMs : Z)
    (st : PollingState) (o : Observation) : Control :=
  match o with
  | Indeterminate =>
      if scanStarted st then Return Cancelled (after_indeterminate st)
      else if maxConsecutiveNullResponses intervalMs initializationTimeoutMs
              <=? consecutiveNullResponses st + 1
           then Return InitializationTimeout (after_indeterminate st)
           else Continue (after_indeterminate st)
  | Finished => Return Completed (after_finished st)
  | Running => Continue (after_running st)
  end.




(** More answers used in examples: the gate's, and the start's. *)
Definition in_progress (v : JSValue) : FetchResult :=
  HttpResponse (mkResponse 200
    (Some (JObj [("data", JObj [("checkScanInProgress",
                                  JObj [("isInProgress", v)])])]))).

Definition started (id : JSValue) : FetchResult :=
  HttpResponse (mkResponse 200
    (Some (JObj [("data", JObj [("scanAll", JObj [("scanID", id)])])]))).

(* ===================================================================== *)
(** ** [cancel-scan.ts] *)
(* ===================================================================== *)

(** The cancellation tool is a program of its own: it sends two kinds of
    request, reads a line from standard input, prints a verdict and may end
    the process with [Deno.exit].  Its world and its monad are those of the
    launcher, with standard input added and with [Exited] as a way to
    complete.  Of the console output only the lines by which [main] reports
    what happened are kept, as [Print] events. *)
Module CancelScan.

Inductive Request : Type :=
| CheckScanInProgress
| CancelScan (scanId : string).

(** The lines [main] reports with; a value that the line interpolates is
    carried as it is. *)
Inductive Report : Type :=
| NothingToCancel
| NoActiveScanFound (scanId : JSValue)
| CanceledWithError (error scanId : JSValue)
| SuccessfullyCancelled (scanId : JSValue)
| PreviousScanId (previousScanId : JSValue)
| FailedToCancel (error : JSValue)
| AnErrorOccurred (message : string).

Inductive Event : Type :=
| Fetch (req : Request)
| Prompt
| Print (line : Report).

(** [stdin] holds the lines still to be read from standard input. *)
Record World : Type := mkWorld {
  incoming : nat -> FetchResult;
  stdin : list string;
  events : list Event
}.

Inductive Completion (A : Type) : Type :=
| Returned (a : A)
| Thrown (e : Error)
| Exited (code : Z).
Arguments Returned {A} a.
Arguments Thrown {A} e.
Arguments Exited {A} code.

Definition M (A : Type) : Type := World -> Completion A * World.

Definition ret {A} (a : A) : M A := fun w => (Returned a, w).

Definition throw {A} (e : Error) : M A := fun w => (Thrown e, w).

(** [Deno.exit(code)]: nothing after it runs, no [catch] sees it. *)
Definition exit {A} (code : Z) : M A := fun w => (Exited code, w).

Definition bind {A B} (m : M A) (k : A -> M B) : M B :=
  fun w =>
    match m w with
    | (Returned a, w') => k a w'
    | (Thrown e, w') => (Thrown e, w')
    | (Exited code, w') => (Exited code, w')
    end.

Definition try_catch {A} (m : M A) (handler : Error -> M A) : M A :=
  fun w =>
    match m w with
    | (Thrown e, w') => handler e w'
    | other => other
    end.

Declare Scope cancel_scope.
Delimit Scope cancel_scope with cancel.
Notation "x <- m ;; k" := (bind m (fun x => k))
  (at level 61, m at next level, right associativity) : cancel_scope.
Notation "m ;; k" := (bind m (fun _ => k))
  (at level 61, right associativity) : cancel_scope.
Local Open Scope cancel_scope.

Definition lift {A} (r : Error + A) : M A :=
  match r with
  | inl e => throw e
  | inr a => ret a
  end.

Definition log (ev : Event) (w : World) : World :=
  {| incoming := incoming w; stdin := stdin w; events := ev :: events w |}.

Definition advance (req : Request) (w : World) : World :=
  {| incoming := fun n => incoming w (S n);
     stdin := stdin w;
     events := Fetch req :: events w |}.

Definition fetch (req : Request) : M Response :=
  fun w =>
    match incoming w 0 with
    | NetworkError msg => (Thrown (mkError msg), advance req w)
    | HttpResponse r => (Returned r, advance req w)
    end.

Definition json (r : Response) : M JSValue :=
  match body r with
  | Some v => ret v
  | None => throw (mkError "Unexpected token in JSON")
  end.

(** The world after the prompt has been shown and a line read, [rest]
    being the lines left. *)
Definition prompted (rest : list string) (w : World) : World :=
  {| incoming := incoming w; stdin := rest; events := Prompt :: events w |}.

Definition print (line : Report) : M unit :=
  fun w => (Returned tt, log (Print line) w).

Definition http_error (r : Response) : Error :=
  mkError ("HTTP error! Status: " ++ string_of_Z (status r))%string.

Definition invalid_format : Error :=
  mkError "Invalid response format from GraphQL endpoint".

(** The body is parsed before the HTTP status is looked at; whatever is
    thrown is logged and thrown again. *)
Definition checkScanInProgress : M JSValue :=
  try_catch
    (response <- fetch CheckScanInProgress ;;
     responseData <- json response ;;
     (if negb (ok response) then throw (http_error response) else ret tt) ;;
     data <- lift (get_prop responseData "data") ;;
     (if negb (truthy data) || negb (truthy (get_opt data "checkScanInProgress"))
      then throw invalid_format else ret tt) ;;
     ret (get_opt (get_opt data "checkScanInProgress") "isInProgress"))
    (fun error => throw error).

Definition cancelScan (scanId : string) : M JSValue :=
  try_catch
    (response <- fetch (CancelScan scanId) ;;
     responseData <- json response ;;
     (if negb (ok response) then throw (http_error response) else ret tt) ;;
     data <- lift (get_prop responseData "data") ;;
     (if negb (truthy data) || negb (truthy (get_opt data "cancelScan"))
      then throw invalid_format else ret tt) ;;
     ret (get_opt data "cancelScan"))
    (fun error => throw error).

(** [s.includes(needle)] on strings. *)
Definition string_includes (s needle : string) : bool :=
  match index 0 needle s with
  | Some _ => true
  | None => false
  end.

(** [v.includes(needle)] for a truthy [v]: the method of strings, the
    method of arrays, and a [TypeError] on anything else, which has no such
    method. *)
Definition js_includes (v : JSValue) (needle : string) : Error + bool :=
  match v with
  | JStr s => inr (string_includes s needle)
  | JArr items =>
      inr (existsb (fun x => match x with
                             | JStr t => String.eqb t needle
                             | _ => false
                             end) items)
  | _ => inl (mkError "result.error.includes is not a function")
  end.

(** [v.length > 0] for a string or an array, the values on which [main]
    gets to evaluate it. *)
Definition js_length_positive (v : JSValue) : bool :=
  match v with
  | JStr s => negb (String.eqb s "")
  | JArr items => match items with [] => false | _ => true end
  | _ => false
  end.

Section WithTrim.

(** [String.prototype.trim] *)
Variable trim : string -> string.

(** [for await (const line of readLines(Deno.stdin)) return line.trim()] *)
Definition promptForScanId : M string :=
  fun w =>
    match stdin w with
    | line :: rest => (Returned (trim line), prompted rest w)
    | [] => (Thrown (mkError "Failed to read input"), log Prompt w)
    end.

Definition main : M unit :=
  try_catch
    (isInProgress <- checkScanInProgress ;;
     (if negb (truthy isInProgress)
      then print NothingToCancel ;; exit 0
      else ret tt) ;;
     scanId <- promptForScanId ;;
     result <- cancelScan scanId ;;
     let error := get_opt result "error" in
     if truthy (get_opt result "isCanceled") then
       no_active <- (if truthy error
                     then lift (js_includes error "No active scan found in DB")
                     else ret false) ;;
       (if no_active then
          print (NoActiveScanFound (get_opt result "scanId"))
        else if truthy error && js_length_positive error then
          print (CanceledWithError error (get_opt result "scanId"))
        else
          print (SuccessfullyCancelled (get_opt result "scanId"))) ;;
       if truthy (get_opt result "previousScanId")
       then print (PreviousScanId (get_opt result "previousScanId"))
       else ret tt
     else
       print (FailedToCancel (if truthy error then error else JStr "Unknown error")))
    (fun error => print (AnErrorOccurred (message error)) ;; exit 1).

End WithTrim.

(** The requests in a log. *)
Definition requests (evs : list Event) : list Request :=
  flat_map (fun ev => match ev with Fetch req => [req] | _ => [] end) evs.

(** A world for examples. *)
Definition world_of (answers : list FetchResult) (rest : FetchResult)
    (lines : list string) : World :=
  mkWorld (fun n => nth n answers rest) lines [].

Definition cancelled (fields : list (string * JSValue)) : FetchResult :=
  HttpResponse (mkResponse 200
    (Some (JObj [("data", JObj [("cancelScan", JObj fields)])]))).

End CancelScan.

(** The answers in which the endpoint does say whether a scan is in
    progress: HTTP-ok, a JSON body, a truthy [data] and a truthy
    [data.checkScanInProgress]. *)
Definition gate_answered (f : FetchResult) : bool :=
  match f with
  | NetworkError _ => false
  | HttpResponse r =>
      ok r &&
      match body r with
      | Some j =>
          truthy (get_opt j "data")
          && truthy (get_opt (get_opt j "data") "checkScanInProgress")
      | None => false
      end
  end.

(** The transition rule of the polling state machine, on observations
    alone: the result that observation [o] produces when the observations
    [before] it have been made and none of them produced one; [None] when
    polling goes on.  [T] is the threshold of consecutive indeterminate
    observations. *)
Definition verdict (T : Z) (before : list Observation) (o : Observation)
    : option PollResult :=
  match o with
  | Finished => Some Completed
  | Running => None
  | Indeterminate =>
      if existsb is_running before then Some Cancelled
      else if T <=? trailing_indeterminate before + 1
           then Some InitializationTimeout
           else None
  end.

(* ===================================================================== *)
(** ** The status probe *)
(* ===================================================================== *)

(** A probe returns, having sent exactly one request; the status it
    carries is [null] when the probe failed and the reported field
    otherwise. *)
Lemma checkScanningStatus_spec (scanID : JSValue) (w : World) :
  exists r,
    checkScanningStatus scanID w
      = (Returned r, advance (Fetch (IsStillScanningQuery scanID)) w)
    /\ isStillScanning r
       = if probe_failed (incoming w 0) then JNull else status_field (incoming w 0).
Proof.
  unfold checkScanningStatus, try_catch, bind, fetch, json, lift.
  unfold probe_failed, status_field.
  destruct (incoming w 0) as [msg | r]; [eexists; split; reflexivity |].
  destruct (ok r); simpl; [| eexists; split; reflexivity].
  destruct (body r) as [j |]; simpl; [| eexists; split; reflexivity].
  destruct j; simpl; try (eexists; split; reflexivity).
  change (get_opt (JObj fields) "data") with (lookup "data" fields).
  destruct (lookup "data" fields) as [| | b | n | s | items | inner]; simpl;
    eexists; split; reflexivity.
Qed.

Lemma observe_spec (f : FetchResult) :
  observe f = classify (if probe_failed f then JNull else status_field f).
Proof.
  unfold observe.
  destruct (checkScanningStatus_spec JUndefined (mkWorld (fun _ => f) []))
    as (r & Hrun & Hval).
  rewrite Hrun. simpl in *. now rewrite Hval.
Qed.

(* ===================================================================== *)
(** ** One pass through the loop body *)
(* ===================================================================== *)

Section IterationFacts.

Variable scanID : JSValue.
Variables maxAttempts intervalMs initializationTimeoutMs : Z.

Let T := maxConsecutiveNullResponses intervalMs initializationTimeoutMs.
Let iteration := poll_iteration scanID intervalMs initializationTimeoutMs.

(** The body, by cases on the observation it makes. *)
Lemma poll_iteration_spec (st : PollingState) (w : World) :
  iteration st w =
    match observation w 0 with
    | Indeterminate =>
        if scanStarted st then
          (Returned (Return Cancelled (after_indeterminate st)), probed scanID w)
        else if T <=? consecutiveNullResponses st + 1 then
          (Returned (Return InitializationTimeout (after_indeterminate st)),
           probed scanID w)
        else
          (Returned (Continue (after_indeterminate st)),
           paused intervalMs (probed scanID w))
    | Finished =>
        (Returned (Return Completed (after_finished st)), probed scanID w)
    | Running =>
        (Returned (Continue (after_running st)),
         paused intervalMs (probed scanID w))
    end.
Proof.
  unfold iteration, poll_iteration, bind, T.
  destruct (checkScanningStatus_spec scanID w) as (r & Hrun & Hval).
  rewrite Hrun. unfold observation. rewrite observe_spec, <- Hval.
  unfold classify, after_indeterminate, after_finished, after_running.
  destruct st as [a c started]; simpl.
  destruct (is_null (isStillScanning r)).
  - destruct started; [reflexivity |].
    destruct (_ <=? _); reflexivity.
  - destruct (is_false (isStillScanning r)); reflexivity.
Qed.

End IterationFacts.

(* ===================================================================== *)
(** ** Observation sequences *)
(* ===================================================================== *)

Lemma observations_S (w : World) (k : nat) :
  observations w (S k) = observations w k ++ [observation w k].
Proof.
  unfold observations. now rewrite seq_S, map_app.
Qed.

Lemma observations_length (w : World) (k : nat) :
  List.length (observations w k) = k.
Proof.
  unfold observations. now rewrite length_map, length_seq.
Qed.

Lemma trailing_indeterminate_snoc (l : list Observation) (o : Observation) :
  trailing_indeterminate (l ++ [o])
  = if is_indeterminate o then 1 + trailing_indeterminate l else 0.
Proof.
  unfold trailing_indeterminate. rewrite rev_app_distr.
  destruct o; reflexivity.
Qed.

Lemma trailing_indeterminate_nonneg (l : list Observation) :
  0 <= trailing_indeterminate l.
Proof.
  unfold trailing_indeterminate.
  induction (rev l) as [| o t IH]; cbn [leading_indeterminate]; [lia |].
  destruct o; lia.
Qed.

Lemma existsb_snoc {A} (p : A -> bool) (l : list A) (x : A) :
  existsb p (l ++ [x]) = existsb p l || p x.
Proof.
  rewrite existsb_app. simpl. now rewrite orb_false_r.
Qed.

(** A sequence with neither a running nor a finished observation is
    indeterminate throughout. *)
Lemma all_indeterminate (l : list Observation) :
  existsb is_running l = false ->
  existsb is_finished l = false ->
  trailing_indeterminate l = Z.of_nat (List.length l)
  /\ forall i, (i < List.length l)%nat -> nth i l Indeterminate = Indeterminate.
Proof.
  induction l as [| o l IH] using rev_ind; intros Hr Hf.
  - split; [reflexivity | simpl; intros; lia].
  - rewrite existsb_snoc in Hr, Hf.
    apply orb_false_iff in Hr as [Hr Ho], Hf as [Hf Ho'].
    destruct (IH Hr Hf) as [IHt IHn].
    destruct o; try discriminate.
    rewrite trailing_indeterminate_snoc, length_app, IHt.
    cbn [is_indeterminate List.length].
    split; [lia |].
    intros i Hi.
    destruct (Nat.eq_dec i (List.length l)) as [-> | Hne].
    + now rewrite nth_middle.
    + rewrite app_nth1 by lia. apply IHn. lia.
Qed.

Lemma nth_observations (w : World) (k i : nat) :
  (i < k)%nat -> nth i (observations w k) Indeterminate = observation w i.
Proof.
  intros Hi. unfold observations.
  rewrite nth_indep with (d' := observation w 0%nat)
    by now rewrite length_map, length_seq.
  rewrite map_nth, seq_nth by assumption. reflexivity.
Qed.

Lemma existsb_running_observations (w : World) (k i : nat) :
  (i < k)%nat -> observation w i = Running ->
  existsb is_running (observations w k) = true.
Proof.
  intros Hi Hrun. apply existsb_exists. exists Running. split; [| reflexivity].
  rewrite <- Hrun. unfold observations. apply in_map, in_seq. lia.
Qed.

(* ===================================================================== *)
(** ** Sessions: the loop as a whole *)
(* ===================================================================== *)

Lemma fetch_count_cons (ev : Event) (evs : list Event) :
  fetch_count (ev :: evs) = (if is_fetch ev then 1 else 0) + fetch_count evs.
Proof.
  unfold fetch_count. cbn [filter].
  destruct (is_fetch ev); cbn [List.length]; lia.
Qed.

Section SessionFacts.

Variable scanID : JSValue.
Variables maxAttempts intervalMs initializationTimeoutMs : Z.
Variable w0 : World.

Let T := maxConsecutiveNullResponses intervalMs initializationTimeoutMs.
Let iteration := poll_iteration scanID intervalMs initializationTimeoutMs.
Let loop := poll_loop scanID maxAttempts intervalMs initializationTimeoutMs.
Let after := state_after scanID maxAttempts intervalMs initializationTimeoutMs.
Let session :=
  pollUntilScanComplete scanID maxAttempts intervalMs initializationTimeoutMs.
Let inv := polling_inv scanID maxAttempts intervalMs initializationTimeoutMs w0.
Let ending :=
  session_ending scanID maxAttempts intervalMs initializationTimeoutMs w0.

(** A pass through the body returns a [Control], never throws, and takes
    exactly one attempt. *)
Lemma poll_iteration_returns (st : PollingState) (w : World) :
  (exists st', iteration st w
               = (Returned (Continue st'), paused intervalMs (probed scanID w))
               /\ attempts st' = attempts st + 1)
  \/ (exists r st', iteration st w = (Returned (Return r st'), probed scanID w)
                    /\ attempts st' = attempts st + 1).
Proof.
  unfold iteration. rewrite poll_iteration_spec.
  destruct (observation w 0).
  - left. eexists; split; reflexivity.
  - right. do 2 eexists; split; reflexivity.
  - destruct (scanStarted st); [right; do 2 eexists; split; reflexivity |].
    destruct (_ <=? _);
      [right; do 2 eexists | left; eexists]; split; reflexivity.
Qed.

Lemma loop_stop (fuel : nat) (st : PollingState) (w : World) :
  maxAttempts <= attempts st ->
  loop fuel st w = (Returned (MaxAttemptsReached, st), w).
Proof.
  intros Hge. unfold loop.
  destruct fuel; cbn [poll_loop];
    destruct (Z.ltb_spec (attempts st) maxAttempts); try lia; reflexivity.
Qed.

Lemma loop_continue (fuel : nat) (st st' : PollingState) (w w' : World) :
  attempts st < maxAttempts ->
  iteration st w = (Returned (Continue st'), w') ->
  loop (S fuel) st w = loop fuel st' w'.
Proof.
  intros Hlt Hit. unfold loop. cbn [poll_loop].
  destruct (Z.ltb_spec (attempts st) maxAttempts); [| lia].
  unfold bind. fold iteration. rewrite Hit. reflexivity.
Qed.

Lemma loop_return (fuel : nat) (st st' : PollingState) (r : PollResult)
    (w w' : World) :
  attempts st < maxAttempts ->
  iteration st w = (Returned (Return r st'), w') ->
  loop (S fuel) st w = (Returned (r, st'), w').
Proof.
  intros Hlt Hit. unfold loop. cbn [poll_loop].
  destruct (Z.ltb_spec (attempts st) maxAttempts); [| lia].
  unfold bind. fold iteration. rewrite Hit. reflexivity.
Qed.

Lemma state_after_S (k : nat) (st' : PollingState) (w' : World) :
  after (S k) w0 = Some (st', w') ->
  exists st w,
    after k w0 = Some (st, w)
    /\ attempts st < maxAttempts
    /\ iteration st w = (Returned (Continue st'), w').
Proof.
  unfold after, iteration. cbn [state_after].
  destruct (state_after _ _ _ _ k w0) as [[st w] |]; [| discriminate].
  destruct (Z.ltb_spec (attempts st) maxAttempts); [| discriminate].
  destruct (poll_iteration _ _ _ st w) as [[[st'' | r st''] | e |] w''] eqn:Hit;
    try discriminate.
  intros [= -> ->]. now exists st, w.
Qed.

Lemma state_after_next (k : nat) (st st' : PollingState) (w w' : World) :
  after k w0 = Some (st, w) ->
  attempts st < maxAttempts ->
  iteration st w = (Returned (Continue st'), w') ->
  after (S k) w0 = Some (st', w').
Proof.
  unfold after, iteration. intros Hk Hlt Hit. cbn [state_after].
  rewrite Hk. destruct (Z.ltb_spec (attempts st) maxAttempts); [| lia].
  now rewrite Hit.
Qed.

(** The invariant of the loop. *)
Lemma state_after_inv (k : nat) :
  forall st w, after k w0 = Some (st, w) -> inv k st w.
Proof.
  induction k as [| k IH]; intros st' w' Hk.
  - injection Hk as <- <-. split; try reflexivity; try lia.
    exists []. repeat split. constructor.
  - destruct (state_after_S _ _ _ Hk) as (st & w & Hprev & Hlt & Hit).
    destruct (IH _ _ Hprev) as [Ha Hb Hc Hs Hf Hw Hin (new & Hev & Hcnt & Hall)].
    assert (Hobs : observation w 0 = observation w0 k).
    { unfold observation. now rewrite Hin, Nat.add_0_r. }
    unfold iteration in Hit. rewrite poll_iteration_spec, Hobs in Hit.
    assert (Hworld : w' = paused intervalMs (probed scanID w) ->
               (forall n, incoming w' n = incoming w0 (S k + n))
               /\ exists new',
                   events w' = new' ++ events w0
                   /\ fetch_count new' = Z.of_nat (S k)
                   /\ Forall (session_event scanID intervalMs) new').
    { intros ->. split.
      - intros n. cbn. rewrite Hin. f_equal. lia.
      - exists (Sleep intervalMs :: Fetch (IsStillScanningQuery scanID) :: new).
        cbn [paused probed advance events]. rewrite Hev.
        split; [reflexivity |]. split.
        + rewrite !fetch_count_cons, Hcnt. cbn [is_fetch]. lia.
        + constructor; [now right |]. constructor; [now left | assumption]. }
    destruct (observation w0 k) eqn:Hok.
    + (* running *)
      injection Hit as <- Hw'. symmetry in Hw'.
      destruct (Hworld Hw') as [Hin' Hev'].
      split; cbn [after_running attempts consecutiveNullResponses scanStarted];
        try assumption.
      * lia.
      * lia.
      * now rewrite observations_S, trailing_indeterminate_snoc, Hok.
      * rewrite observations_S, existsb_snoc, Hok. cbn. now rewrite orb_true_r.
      * rewrite observations_S, existsb_snoc, Hok, Hf. reflexivity.
      * discriminate.
    + discriminate.
    + (* indeterminate *)
      destruct (scanStarted st) eqn:Hst; [discriminate |].
      destruct (_ <=? _) eqn:Hle in Hit; [discriminate |].
      apply Z.leb_gt in Hle.
      injection Hit as <- Hw'. symmetry in Hw'.
      destruct (Hworld Hw') as [Hin' Hev'].
      split;
        cbn [after_indeterminate attempts consecutiveNullResponses scanStarted];
        try assumption.
      * lia.
      * lia.
      * rewrite observations_S, trailing_indeterminate_snoc, Hok, Hc.
        cbn [is_indeterminate]. lia.
      * rewrite observations_S, existsb_snoc, Hok, <- Hs, Hst. reflexivity.
      * rewrite observations_S, existsb_snoc, Hok, Hf. reflexivity.
      * intros _ _. lia.
Qed.

(** Where the session is after [k] passes that fell through. *)
Lemma session_from (k : nat) :
  forall st w,
    after k w0 = Some (st, w) ->
    session w0 = loop (Z.to_nat maxAttempts - k) st w.
Proof.
  induction k as [| k IH]; intros st' w' Hk.
  - injection Hk as <- <-. unfold session, pollUntilScanComplete, loop.
    now rewrite Nat.sub_0_r.
  - destruct (state_after_S _ _ _ Hk) as (st & w & Hprev & Hlt & Hit).
    rewrite (IH _ _ Hprev).
    pose proof (inv_attempts _ _ _ _ _ _ _ _ (state_after_inv _ _ _ Hprev)) as Ha.
    replace (Z.to_nat maxAttempts - k)%nat
      with (S (Z.to_nat maxAttempts - S k)) by lia.
    now apply loop_continue.
Qed.

Lemma session_stops (k : nat) (st : PollingState) (w : World) :
  after k w0 = Some (st, w) ->
  maxAttempts <= attempts st ->
  session w0 = (Returned (MaxAttemptsReached, st), w).
Proof.
  intros Hk Hge. rewrite (session_from _ _ _ Hk). now apply loop_stop.
Qed.

Lemma session_returns (k : nat) (st st' : PollingState) (r : PollResult)
    (w w' : World) :
  after k w0 = Some (st, w) ->
  attempts st < maxAttempts ->
  iteration st w = (Returned (Return r st'), w') ->
  session w0 = (Returned (r, st'), w').
Proof.
  intros Hk Hlt Hit. rewrite (session_from _ _ _ Hk).
  pose proof (inv_attempts _ _ _ _ _ _ _ _ (state_after_inv _ _ _ Hk)) as Ha.
  replace (Z.to_nat maxAttempts - k)%nat
    with (S (Z.to_nat maxAttempts - S k)) by lia.
  now apply loop_return.
Qed.

Lemma session_end_from (m : nat) :
  forall k st w,
    after k w0 = Some (st, w) ->
    (Z.to_nat (maxAttempts - attempts st) <= m)%nat ->
    exists n stn wn, after n w0 = Some (stn, wn) /\ ending stn wn.
Proof.
  induction m as [| m IH]; intros k st w Hk Hm;
    destruct (Z_lt_le_dec (attempts st) maxAttempts) as [Hlt | Hge];
    try lia;
    try (exists k, st, w; split; [assumption | left; split;
           [assumption | now apply session_stops with k]]).
  destruct (poll_iteration_returns st w)
    as [(st' & Hit & Hatt) | (r & st' & Hit & Hatt)].
  - apply (IH (S k) st' (paused intervalMs (probed scanID w))).
    + now apply state_after_next with st w.
    + lia.
  - exists k, st, w. split; [assumption |]. right. split; [assumption |].
    exists r, st'. repeat split; try assumption.
    now apply session_returns with k st w.
Qed.

Lemma session_end :
  exists n st w, after n w0 = Some (st, w) /\ ending st w.
Proof.
  apply (session_end_from (Z.to_nat maxAttempts) 0 initial_state w0).
  - reflexivity.
  - cbn [initial_state attempts]. lia.
Qed.

End SessionFacts.

(* ===================================================================== *)
(** ** The status probe never throws *)
(* ===================================================================== *)

(** C6. For every scan identifier and every answer of the endpoint, a status
    probe returns (it does not throw, whatever the endpoint does), having
    sent one request; when it failed to obtain a status (transport failure,
    HTTP error status, body that is not JSON, no [data], no record, no or a
    null status field) the result carries [isStillScanning = null], which
    the loop observes as Indeterminate; otherwise it carries the reported
    field. *)
Theorem checkScanningStatus_never_throws (scanID : JSValue) (w : World) :
  exists r,
    checkScanningStatus scanID w = (Returned r, probed scanID w)
    /\ (probe_failed (incoming w 0) = true ->
        isStillScanning r = JNull /\ observation w 0 = Indeterminate)
    /\ (probe_failed (incoming w 0) = false ->
        isStillScanning r = status_field (incoming w 0)).
Proof.
  destruct (checkScanningStatus_spec scanID w) as (r & Hrun & Hval).
  exists r. split; [exact Hrun |]. split; intros Hf; rewrite Hf in Hval.
  - split; [exact Hval |].
    unfold observation. now rewrite observe_spec, Hf.
  - exact Hval.
Qed.

Lemma checkScanningStatus_never_throws_witness :
  let w := world_of [HttpResponse (mkResponse 503 None)] unreachable in
  probe_failed (incoming w 0) = true
  /\ exists r,
      checkScanningStatus (JStr "scan-1") w = (Returned r, probed (JStr "scan-1") w)
      /\ isStillScanning r = JNull
      /\ observation w 0 = Indeterminate.
Proof.
  intros w. split; [reflexivity |].
  destruct (checkScanningStatus_never_throws (JStr "scan-1") w) as (r & Hrun & Hfail & _).
  exists r. split; [exact Hrun |]. apply Hfail. reflexivity.
Defined.

(** Each way of failing named in the specification is a failed probe. *)
Lemma probe_failed_cases :
  (forall msg, probe_failed (NetworkError msg) = true)
  /\ (forall r, ok r = false -> probe_failed (HttpResponse r) = true)
  /\ (forall r, body r = None -> probe_failed (HttpResponse r) = true)
  /\ (forall r j, body r = Some j ->
       is_nullish (get_opt (get_opt j "data") "getScannedAppsInfo") = true ->
       probe_failed (HttpResponse r) = true)
  /\ (forall r j, body r = Some j ->
       is_nullish (get_opt (get_opt (get_opt j "data") "getScannedAppsInfo")
                           "isStillScanning") = true ->
       probe_failed (HttpResponse r) = true).
Proof.
  repeat split; intros; unfold probe_failed, status_field.
  - now rewrite H.
  - rewrite H. apply orb_true_r.
  - rewrite H. destruct (get_opt (get_opt j "data") "getScannedAppsInfo");
      try discriminate; apply orb_true_r.
  - rewrite H, H0. apply orb_true_r.
Qed.

(* ===================================================================== *)
(** ** The active-job gate *)
(* ===================================================================== *)

Lemma get_prop_get_opt (v : JSValue) (k : string) :
  is_nullish v = false -> get_prop v k = inr (get_opt v k).
Proof.
  unfold get_opt. destruct v; intros H; try discriminate; reflexivity.
Qed.

(** Whatever the endpoint answers, starting a scan sends the mutation and
    nothing else. *)
Lemma initiateScanning_world (w : World) :
  snd (initiateScanning w) = advance (Fetch ScanAllMutation) w
  /\ fst (initiateScanning w) <> OutOfFuel.
Proof.
  unfold initiateScanning, bind, fetch, json, lift.
  destruct (incoming w 0) as [msg | r]; [split; [reflexivity | discriminate] |].
  destruct (ok r); cbn; [| split; [reflexivity | discriminate]].
  destruct (body r) as [j |]; cbn; [| split; [reflexivity | discriminate]].
  destruct (get_prop j "data") as [e | d]; cbn;
    [split; [reflexivity | discriminate] |].
  destruct (truthy _); cbn; split; try reflexivity; discriminate.
Qed.

(** The failures that do reach the [catch] of the gate make it answer
    [true]: no connection, an HTTP error status, a body that is not JSON, a
    body that is the JSON literal [null]. *)
Lemma checkScanInProgress_fail_safe (w : World) :
  match incoming w 0 with
  | NetworkError _ => True
  | HttpResponse r =>
      ok r = false \/ body r = None \/ body r = Some JNull
  end ->
  checkScanInProgress w
  = (Returned (JBool true), advance (Fetch CheckScanInProgressQuery) w).
Proof.
  unfold checkScanInProgress, try_catch, bind, fetch, json, lift.
  destruct (incoming w 0) as [msg | r]; [reflexivity |].
  intros [H | [H | H]].
  - now rewrite H.
  - destruct (ok r); cbn; [| reflexivity]. now rewrite H.
  - destruct (ok r); cbn; [| reflexivity]. now rewrite H.
Qed.

(* ===================================================================== *)
(** ** Outcomes of a session *)
(* ===================================================================== *)

(** The three ways the body returns. *)
Lemma poll_iteration_return_cases (scanID : JSValue)
    (intervalMs initializationTimeoutMs : Z)
    (st st' : PollingState) (r : PollResult) (w w' : World) :
  poll_iteration scanID intervalMs initializationTimeoutMs st w
    = (Returned (Return r st'), w') ->
  (r = Completed /\ observation w 0 = Finished /\ st' = after_finished st)
  \/ (r = Cancelled /\ observation w 0 = Indeterminate
      /\ scanStarted st = true /\ st' = after_indeterminate st)
  \/ (r = InitializationTimeout /\ observation w 0 = Indeterminate
      /\ scanStarted st = false
      /\ maxConsecutiveNullResponses intervalMs initializationTimeoutMs
         <= consecutiveNullResponses st + 1
      /\ st' = after_indeterminate st).
Proof.
  rewrite poll_iteration_spec.
  destruct (observation w 0); [discriminate | |].
  - intros [= <- <- _]. now left.
  - destruct (scanStarted st) eqn:Hst.
    + intros [= <- <- _]. right. left. now repeat split.
    + destruct (Z.leb_spec
                  (maxConsecutiveNullResponses intervalMs initializationTimeoutMs)
                  (consecutiveNullResponses st + 1)); [| discriminate].
      intros [= <- <- _]. right. right. now repeat split.
Qed.

(** Every session returns one of the four results, and the log it leaves
    tells what it did: as many probes as attempts, all for its own scan,
    and, unless the budget ran out, the probe that decided last. *)
Lemma session_trace (scanID : JSValue)
    (maxAttempts intervalMs initializationTimeoutMs : Z) (w0 : World) :
  exists r st w' new,
    pollUntilScanComplete scanID maxAttempts intervalMs initializationTimeoutMs w0
      = (Returned (r, st), w')
    /\ In r [Completed; Cancelled; InitializationTimeout; MaxAttemptsReached]
    /\ events w' = new ++ events w0
    /\ fetch_count new = attempts st
    /\ (forall n, incoming w' n = incoming w0 (Z.to_nat (attempts st) + n))
    /\ Forall (session_event scanID intervalMs) new
    /\ (r = MaxAttemptsReached
        \/ exists earlier, new = Fetch (IsStillScanningQuery scanID) :: earlier).
Proof.
  destruct (session_end scanID maxAttempts intervalMs initializationTimeoutMs w0)
    as (k & st & w & Hk & Hend).
  destruct (state_after_inv _ _ _ _ _ _ _ _ Hk)
    as [Ha _ _ _ _ _ Hin (new & Hev & Hcnt & Hall)].
  destruct Hend as [[Hge Hrun] | (Hlt & r & st' & Hit & Hatt & Hrun)].
  - exists MaxAttemptsReached, st, w, new. split; [exact Hrun |].
    split; [cbn; tauto |]. split; [exact Hev |]. split; [lia |].
    split; [| split; [exact Hall | now left]].
    intros n. rewrite Hin, Ha, Nat2Z.id. reflexivity.
  - exists r, st', (probed scanID w), (Fetch (IsStillScanningQuery scanID) :: new).
    split; [exact Hrun |]. split.
    { apply poll_iteration_return_cases in Hit.
      destruct Hit as [(-> & _) | [(-> & _) | (-> & _)]]; cbn; tauto. }
    split; [cbn; now rewrite Hev |].
    split; [rewrite fetch_count_cons; cbn [is_fetch]; lia |].
    split; [| split].
    + intros n. cbn. rewrite Hin, Hatt, Ha. f_equal. lia.
    + constructor; [now left | exact Hall].
    + right. now exists new.
Qed.

(* ===================================================================== *)
(** ** The gate and [main] *)
(* ===================================================================== *)

(** What [main] does once the gate has answered with a falsy value: it
    sends the mutation that starts a scan. *)
Lemma main_starts_scan (env : Env) (w w1 : World) (v : JSValue) :
  checkScanInProgress w = (Returned v, w1) ->
  truthy v = false ->
  exists w' later,
    main env w = (Returned tt, w')
    /\ events w' = later ++ Fetch ScanAllMutation :: events w1.
Proof.
  intros Hgate Hv. unfold main, try_catch, bind. rewrite Hgate, Hv.
  destruct (initiateScanning_world w1) as [Hw Hfuel].
  destruct (initiateScanning w1) as [[scanID | e |] w2]; cbn in Hw, Hfuel;
    subst w2; [| | congruence].
  - destruct (session_trace scanID
                (number_or (MAX_POLL_ATTEMPTS env) 100)
                (number_or (POLL_INTERVAL_MS env) 30000)
                (number_or (INITIALIZATION_TIMEOUT_MS env) 300000)
                (advance (Fetch ScanAllMutation) w1))
      as (r & st & w3 & new & Hrun & _ & Hev & _).
    rewrite Hrun. exists w3, new. split; [reflexivity | exact Hev].
  - exists (advance (Fetch ScanAllMutation) w1), []. split; reflexivity.
Qed.

(** What [main] does when the gate answers with a truthy value: nothing. *)
Lemma main_refuses (env : Env) (w w1 : World) (v : JSValue) :
  checkScanInProgress w = (Returned v, w1) ->
  truthy v = true ->
  main env w = (Returned tt, w1).
Proof.
  intros Hgate Hv. unfold main, try_catch, bind. now rewrite Hgate, Hv.
Qed.

(** C10, as stated, fails on one body: the JSON literal [null] is
    well-formed JSON and has no [checkScanInProgress] field, but reading
    [data] off it throws, the [catch] is taken, the gate returns [true],
    and [main] sends nothing but the gate's query. *)
Lemma gate_null_body_returns_true :
  let w := world_of [HttpResponse (mkResponse 200 (Some JNull))] unreachable in
  ok (mkResponse 200 (Some JNull)) = true
  /\ get_opt (get_opt (get_opt JNull "data") "checkScanInProgress") "isInProgress"
     = JUndefined
  /\ fst (checkScanInProgress w) = Returned (JBool true)
  /\ fst (checkScanInProgress w) <> Returned JUndefined
  /\ main default_env w
     = (Returned tt, advance (Fetch CheckScanInProgressQuery) w)
  /\ events (snd (main default_env w)) = [Fetch CheckScanInProgressQuery].
Proof.
  cbv zeta. repeat split; try reflexivity. discriminate.
Qed.

(** C10, amended.  When the gate receives an HTTP-ok response whose JSON
    body is not the literal [null] and lacks [checkScanInProgress] or its
    [isInProgress] (the path [data.checkScanInProgress.isInProgress] leads
    nowhere), it returns [undefined]: nothing is thrown, so the [catch]
    that answers [true] is not taken.  [main] treats [undefined] as it
    treats [false]: it goes on and sends the mutation that starts a new
    scan. *)
Theorem checkScanInProgress_missing_field_is_undefined
    (env : Env) (w : World) (r : Response) (j : JSValue) :
  incoming w 0 = HttpResponse r ->
  ok r = true ->
  body r = Some j ->
  is_nullish j = false ->
  get_opt (get_opt (get_opt j "data") "checkScanInProgress") "isInProgress"
    = JUndefined ->
  checkScanInProgress w
    = (Returned JUndefined, advance (Fetch CheckScanInProgressQuery) w)
  /\ truthy JUndefined = truthy (JBool false)
  /\ exists w' later,
      main env w = (Returned tt, w')
      /\ events w'
         = later ++ [Fetch ScanAllMutation; Fetch CheckScanInProgressQuery]
             ++ events w.
Proof.
  intros Hin Hok Hbody Hj Hpath.
  assert (Hgate : checkScanInProgress w
                  = (Returned JUndefined, advance (Fetch CheckScanInProgressQuery) w)).
  { unfold checkScanInProgress, try_catch, bind, fetch, json, lift.
    rewrite Hin, Hok. cbn. rewrite Hbody. cbn.
    rewrite (get_prop_get_opt _ _ Hj). cbn. now rewrite Hpath. }
  split; [exact Hgate |]. split; [reflexivity |].
  destruct (main_starts_scan env _ _ _ Hgate eq_refl) as (w' & later & Hmain & Hev).
  exists w', later. split; [exact Hmain |]. rewrite Hev. reflexivity.
Qed.

Lemma checkScanInProgress_missing_field_is_undefined_witness :
  let w := world_of [HttpResponse (mkResponse 200 (Some (JObj [("data", JObj [])])))]
             unreachable in
  checkScanInProgress w
    = (Returned JUndefined, advance (Fetch CheckScanInProgressQuery) w)
  /\ truthy JUndefined = truthy (JBool false)
  /\ exists w' later,
      main default_env w = (Returned tt, w')
      /\ events w'
         = later ++ [Fetch ScanAllMutation; Fetch CheckScanInProgressQuery]
             ++ events w.
Proof.
  intros w.
  apply (checkScanInProgress_missing_field_is_undefined default_env w
           (mkResponse 200 (Some (JObj [("data", JObj [])])))
           (JObj [("data", JObj [])])); reflexivity.
Defined.

(** C7, at the input where the code departs from it.  The endpoint answers
    the gate with HTTP 200 and a GraphQL error ([errors] and [data: null]):
    whether a scan is active has not been determined, yet the gate returns
    [undefined] instead of [true], and [main] sends the mutation that
    starts a scan. *)
Theorem checkScanInProgress_undetermined_not_true :
  let w := world_of [graphql_error] unreachable in
  fst (checkScanInProgress w) = Returned JUndefined
  /\ fst (checkScanInProgress w) <> Returned (JBool true)
  /\ events (snd (main default_env w))
     = [Fetch ScanAllMutation; Fetch CheckScanInProgressQuery].
Proof.
  cbv zeta. split; [reflexivity |]. split; [discriminate |]. reflexivity.
Qed.

(* ===================================================================== *)
(** ** The transition rules *)
(* ===================================================================== *)

Lemma state_after_observation (scanID : JSValue)
    (maxAttempts intervalMs initializationTimeoutMs : Z) (w0 : World)
    (k : nat) (st : PollingState) (w : World) :
  state_after scanID maxAttempts intervalMs initializationTimeoutMs k w0
    = Some (st, w) ->
  observation w 0 = observation w0 k.
Proof.
  intros Hk. unfold observation.
  rewrite (inv_incoming _ _ _ _ _ _ _ _ (state_after_inv _ _ _ _ _ _ _ _ Hk)).
  now rewrite Nat.add_0_r.
Qed.

(** C1. Once a Running observation has occurred, the next Indeterminate
    observation ends the session with [cancelled].  First conjunct: the
    loop body returns [cancelled] from any locals with [scanStarted] set,
    whatever the counters and the budget are.  Second conjunct: in a
    session that is still polling after [k] observations, one of which was
    Running, and that has budget for one more, an Indeterminate [k+1]-th
    observation makes the polling function return [cancelled] at attempt
    [k+1]. *)
Theorem indeterminate_after_running_cancels (scanID : JSValue)
    (maxAttempts intervalMs initializationTimeoutMs : Z) (w0 : World) :
  (forall st w,
      scanStarted st = true ->
      observation w 0 = Indeterminate ->
      poll_iteration scanID intervalMs initializationTimeoutMs st w
      = (Returned (Return Cancelled (after_indeterminate st)), probed scanID w))
  /\ (forall k i st w,
         state_after scanID maxAttempts intervalMs initializationTimeoutMs k w0
           = Some (st, w) ->
         (i < k)%nat ->
         observation w0 i = Running ->
         Z.of_nat k < maxAttempts ->
         observation w0 k = Indeterminate ->
         pollUntilScanComplete scanID maxAttempts intervalMs
           initializationTimeoutMs w0
         = (Returned (Cancelled, after_indeterminate st), probed scanID w)
         /\ attempts (after_indeterminate st) = Z.of_nat k + 1).
Proof.
  assert (Hbody : forall st w,
             scanStarted st = true ->
             observation w 0 = Indeterminate ->
             poll_iteration scanID intervalMs initializationTimeoutMs st w
             = (Returned (Return Cancelled (after_indeterminate st)),
                probed scanID w)).
  { intros st w Hst Hobs. now rewrite poll_iteration_spec, Hobs, Hst. }
  split; [exact Hbody |].
  intros k i st w Hk Hi Hrun Hlt Hind.
  pose proof (state_after_inv _ _ _ _ _ _ _ _ Hk) as Hinv.
  pose proof (inv_attempts _ _ _ _ _ _ _ _ Hinv) as Ha.
  split; [| cbn; lia].
  apply session_returns with k st w; [exact Hk | lia |].
  apply Hbody.
  - rewrite (inv_started _ _ _ _ _ _ _ _ Hinv).
    now apply existsb_running_observations with i.
  - now rewrite (state_after_observation _ _ _ _ _ _ _ _ Hk).
Qed.

Lemma indeterminate_after_running_cancels_witness :
  let w0 := world_of [answer (JBool true); unreachable] no_record in
  pollUntilScanComplete (JStr "scan-1") 5 1 3 w0
  = (Returned (Cancelled, mkPollingState 2 1 true),
     probed (JStr "scan-1") (paused 1 (probed (JStr "scan-1") w0)))
  /\ attempts (mkPollingState 2 1 true) = 2.
Proof.
  intros w0.
  apply (proj2 (indeterminate_after_running_cancels (JStr "scan-1") 5 1 3 w0)
           1%nat 0%nat (mkPollingState 1 0 true)
           (paused 1 (probed (JStr "scan-1") w0)));
    [reflexivity | lia | reflexivity | lia | reflexivity].
Defined.

(** C4. A Finished observation ends the session with [completed], whatever
    came before.  First conjunct: the loop body returns [completed] from any
    locals, whatever [scanStarted] and the counters are.  Second conjunct:
    in a session that is still polling after [k] observations and has
    budget for one more, a Finished [k+1]-th observation makes the polling
    function return [completed] at attempt [k+1]. *)
Theorem finished_completes (scanID : JSValue)
    (maxAttempts intervalMs initializationTimeoutMs : Z) (w0 : World) :
  (forall st w,
      observation w 0 = Finished ->
      poll_iteration scanID intervalMs initializationTimeoutMs st w
      = (Returned (Return Completed (after_finished st)), probed scanID w))
  /\ (forall k st w,
         state_after scanID maxAttempts intervalMs initializationTimeoutMs k w0
           = Some (st, w) ->
         Z.of_nat k < maxAttempts ->
         observation w0 k = Finished ->
         pollUntilScanComplete scanID maxAttempts intervalMs
           initializationTimeoutMs w0
         = (Returned (Completed, after_finished st), probed scanID w)
         /\ attempts (after_finished st) = Z.of_nat k + 1).
Proof.
  assert (Hbody : forall st w,
             observation w 0 = Finished ->
             poll_iteration scanID intervalMs initializationTimeoutMs st w
             = (Returned (Return Completed (after_finished st)), probed scanID w)).
  { intros st w Hobs. now rewrite poll_iteration_spec, Hobs. }
  split; [exact Hbody |].
  intros k st w Hk Hlt Hfin.
  pose proof (inv_attempts _ _ _ _ _ _ _ _ (state_after_inv _ _ _ _ _ _ _ _ Hk))
    as Ha.
  split; [| cbn; lia].
  apply session_returns with k st w; [exact Hk | lia |].
  apply Hbody. now rewrite (state_after_observation _ _ _ _ _ _ _ _ Hk).
Qed.

Lemma finished_completes_witness :
  let w0 := world_of [no_record; answer (JBool true); answer (JBool false)]
              unreachable in
  pollUntilScanComplete (JStr "scan-1") 5 1 3 w0
  = (Returned (Completed, mkPollingState 3 0 true),
     probed (JStr "scan-1")
       (paused 1 (probed (JStr "scan-1") (paused 1 (probed (JStr "scan-1") w0)))))
  /\ attempts (mkPollingState 3 0 true) = 3.
Proof.
  intros w0.
  apply (proj2 (finished_completes (JStr "scan-1") 5 1 3 w0)
           2%nat (mkPollingState 2 0 true)
           (paused 1 (probed (JStr "scan-1") (paused 1 (probed (JStr "scan-1") w0)))));
    [reflexivity | lia | reflexivity].
Defined.

(** The flag [scanStarted] is set only by a Running observation made
    earlier in the session. *)
Lemma started_has_running (w0 : World) (k : nat) :
  existsb is_running (observations w0 k) = true ->
  exists i, (i < k)%nat /\ observation w0 i = Running.
Proof.
  intros H. apply existsb_exists in H as (o & Hin & Ho).
  unfold observations in Hin. apply in_map_iff in Hin as (i & Hi & Hseq).
  apply in_seq in Hseq. exists i. split; [lia |].
  destruct o; try discriminate. exact Hi.
Qed.

(** C9. A session never ends with [cancelled] on its first observation: if
    the polling function returns [cancelled], the final attempts count is at
    least 2, and some observation strictly before the last one was
    Running. *)
Theorem cancelled_not_on_first_observation (scanID : JSValue)
    (maxAttempts intervalMs initializationTimeoutMs : Z) (w0 : World)
    (st : PollingState) (w' : World) :
  pollUntilScanComplete scanID maxAttempts intervalMs initializationTimeoutMs w0
    = (Returned (Cancelled, st), w') ->
  2 <= attempts st
  /\ exists i, Z.of_nat i < attempts st - 1 /\ observation w0 i = Running.
Proof.
  intros Hrun.
  destruct (session_end scanID maxAttempts intervalMs initializationTimeoutMs w0)
    as (k & stk & wk & Hk & [[_ Hend] | (_ & r & st' & Hit & Hatt & Hend)]);
    rewrite Hrun in Hend; [discriminate |].
  injection Hend as <- <- _.
  pose proof (state_after_inv _ _ _ _ _ _ _ _ Hk) as Hinv.
  apply poll_iteration_return_cases in Hit
    as [(Hr & _) | [(_ & _ & Hst & _) | (Hr & _)]]; try discriminate.
  rewrite (inv_started _ _ _ _ _ _ _ _ Hinv) in Hst.
  apply started_has_running in Hst as (i & Hi & Hobs).
  rewrite Hatt, (inv_attempts _ _ _ _ _ _ _ _ Hinv).
  split; [lia |]. exists i. split; [lia | exact Hobs].
Qed.

Lemma cancelled_not_on_first_observation_witness :
  let w0 := world_of [answer (JBool true); answer (JBool true); no_record]
              unreachable in
  let run := pollUntilScanComplete (JStr "scan-1") 5 1 3 w0 in
  fst run = Returned (Cancelled, mkPollingState 3 1 true)
  /\ 2 <= attempts (mkPollingState 3 1 true)
  /\ exists i, Z.of_nat i < attempts (mkPollingState 3 1 true) - 1
               /\ observation w0 i = Running.
Proof.
  intros w0 run. split; [reflexivity |].
  apply (cancelled_not_on_first_observation (JStr "scan-1") 5 1 3 w0
           (mkPollingState 3 1 true) (snd run)).
  reflexivity.
Defined.

(** C5. With a budget [maxAttempts >= 0]: when none of [completed],
    [cancelled], [initialization_timeout] is produced within the first
    [maxAttempts] observations, the session ends with
    [max_attempts_reached] and the final attempts count is [maxAttempts].
    First conjunct: if all of the first [maxAttempts] passes through the
    body fell through.  Second conjunct: if the result of the session is
    none of the other three. *)
Theorem budget_exhausted_max_attempts_reached (scanID : JSValue)
    (maxAttempts intervalMs initializationTimeoutMs : Z) (w0 : World) :
  0 <= maxAttempts ->
  (forall st w,
      state_after scanID maxAttempts intervalMs initializationTimeoutMs
        (Z.to_nat maxAttempts) w0 = Some (st, w) ->
      pollUntilScanComplete scanID maxAttempts intervalMs
        initializationTimeoutMs w0
      = (Returned (MaxAttemptsReached, st), w)
      /\ attempts st = maxAttempts)
  /\ (forall r st w',
         pollUntilScanComplete scanID maxAttempts intervalMs
           initializationTimeoutMs w0 = (Returned (r, st), w') ->
         r <> Completed -> r <> Cancelled -> r <> InitializationTimeout ->
         r = MaxAttemptsReached /\ attempts st = maxAttempts).
Proof.
  intros Hmax. split.
  - intros st w Hk.
    pose proof (inv_attempts _ _ _ _ _ _ _ _ (state_after_inv _ _ _ _ _ _ _ _ Hk))
      as Ha.
    split; [| lia]. apply session_stops with (Z.to_nat maxAttempts); [exact Hk | lia].
  - intros r st w' Hrun Hc Hx Ht.
    destruct (session_end scanID maxAttempts intervalMs initializationTimeoutMs w0)
      as (k & stk & wk & Hk & [[Hge Hend] | (_ & r' & st' & Hit & _ & Hend)]);
      rewrite Hrun in Hend.
    + injection Hend as -> -> _. split; [reflexivity |].
      destruct (state_after_inv _ _ _ _ _ _ _ _ Hk) as [Ha Hb _ _ _ _ _ _]. lia.
    + injection Hend as <- <- _.
      apply poll_iteration_return_cases in Hit
        as [(Hr & _) | [(Hr & _) | (Hr & _)]]; contradiction.
Qed.

Lemma budget_exhausted_max_attempts_reached_witness :
  let w0 := world_of [answer (JBool true); answer (JBool true)] unreachable in
  let st := mkPollingState 2 0 true in
  let w := paused 1 (probed (JStr "scan-1") (paused 1 (probed (JStr "scan-1") w0))) in
  0 <= 2
  /\ state_after (JStr "scan-1") 2 1 3 (Z.to_nat 2) w0 = Some (st, w)
  /\ pollUntilScanComplete (JStr "scan-1") 2 1 3 w0
     = (Returned (MaxAttemptsReached, st), w)
  /\ attempts st = 2.
Proof.
  intros w0 st w. split; [lia |]. split; [reflexivity |].
  apply (proj1 (budget_exhausted_max_attempts_reached (JStr "scan-1") 2 1 3 w0
                  ltac:(lia)) st w).
  reflexivity.
Defined.

(* ===================================================================== *)
(** ** The counters *)
(* ===================================================================== *)

(** C3, as stated, fails after a Finished observation: the body returns
    without touching the counter.  After [Indeterminate, Finished] the
    counter is still 1, while the sequence has no indeterminate suffix. *)
Lemma counter_not_reset_by_finished :
  let w0 := world_of [no_record; answer (JBool false)] unreachable in
  let st := mkPollingState 2 1 false in
  fst (pollUntilScanComplete (JStr "scan-1") 5 1 3 w0) = Returned (Completed, st)
  /\ observations w0 2 = [Indeterminate; Finished]
  /\ consecutiveNullResponses st
     <> trailing_indeterminate (observations w0 (Z.to_nat (attempts st))).
Proof.
  cbv zeta. split; [reflexivity |]. split; [reflexivity |].
  vm_compute. discriminate.
Qed.

(** C3, amended.  While the session is polling, after [k] observations:
    [attempts] is [k], none of the observations was Finished, and the
    counter is the length of the longest all-indeterminate suffix of the
    sequence; in particular it is 0 right after a Running observation.
    When the session ends, [attempts] is the number [n] of observations
    made; if it ends with anything but [completed], the counter is again
    the length of the longest all-indeterminate suffix of the [n]
    observations; if it ends with [completed], the last observation was
    Finished and the counter is what it was before that observation. *)
Theorem counter_is_trailing_indeterminate (scanID : JSValue)
    (maxAttempts intervalMs initializationTimeoutMs : Z) (w0 : World) :
  (forall k st w,
      state_after scanID maxAttempts intervalMs initializationTimeoutMs k w0
        = Some (st, w) ->
      attempts st = Z.of_nat k
      /\ existsb is_finished (observations w0 k) = false
      /\ consecutiveNullResponses st = trailing_indeterminate (observations w0 k)
      /\ (forall m, k = S m -> observation w0 m = Running ->
                    consecutiveNullResponses st = 0))
  /\ exists r st w' n,
      pollUntilScanComplete scanID maxAttempts intervalMs
        initializationTimeoutMs w0 = (Returned (r, st), w')
      /\ attempts st = Z.of_nat n
      /\ fetch_count (events w') = fetch_count (events w0) + Z.of_nat n
      /\ ((r <> Completed
           /\ existsb is_finished (observations w0 n) = false
           /\ consecutiveNullResponses st
              = trailing_indeterminate (observations w0 n))
          \/ (r = Completed
              /\ exists m, n = S m
                  /\ observation w0 m = Finished
                  /\ consecutiveNullResponses st
                     = trailing_indeterminate (observations w0 m))).
Proof.
  split.
  - intros k st w Hk.
    destruct (state_after_inv _ _ _ _ _ _ _ _ Hk) as [Ha _ Hc _ Hf _ _ _].
    repeat split; try assumption.
    intros m -> Hm. rewrite Hc, observations_S, trailing_indeterminate_snoc, Hm.
    reflexivity.
  - destruct (session_end scanID maxAttempts intervalMs initializationTimeoutMs w0)
      as (k & stk & wk & Hk & Hend).
    pose proof (state_after_observation _ _ _ _ _ _ _ _ Hk) as Hobs.
    destruct (state_after_inv _ _ _ _ _ _ _ _ Hk)
      as [Ha _ Hc _ Hf _ _ (new & Hev & Hcnt & _)].
    assert (Hfetch : fetch_count (events wk) = fetch_count (events w0) + Z.of_nat k).
    { rewrite Hev. unfold fetch_count in *.
      rewrite filter_app, length_app. lia. }
    destruct Hend as [[_ Hrun] | (_ & r & st' & Hit & Hatt & Hrun)].
    + exists MaxAttemptsReached, stk, wk, k.
      repeat split; try assumption. left. repeat split; try assumption.
      discriminate.
    + assert (Hfetch' : fetch_count (events (probed scanID wk))
                        = fetch_count (events w0) + Z.of_nat (S k)).
      { cbn [probed advance events]. rewrite fetch_count_cons. cbn [is_fetch]. lia. }
      exists r, st', (probed scanID wk), (S k).
      split; [exact Hrun |]. split; [lia |]. split; [exact Hfetch' |].
      apply poll_iteration_return_cases in Hit
        as [(-> & Ho & ->) | [(-> & Ho & _ & ->) | (-> & Ho & _ & _ & ->)]];
        rewrite Hobs in Ho.
      * right. split; [reflexivity |]. exists k. now repeat split.
      * left. split; [discriminate |].
        rewrite observations_S, existsb_snoc, trailing_indeterminate_snoc, Ho, Hf.
        cbn [is_finished is_indeterminate orb after_indeterminate
               consecutiveNullResponses].
        split; [reflexivity |]. rewrite Hc. lia.
      * left. split; [discriminate |].
        rewrite observations_S, existsb_snoc, trailing_indeterminate_snoc, Ho, Hf.
        cbn [is_finished is_indeterminate orb after_indeterminate
               consecutiveNullResponses].
        split; [reflexivity |]. rewrite Hc. lia.
Qed.

Lemma counter_is_trailing_indeterminate_witness :
  let w0 := world_of [no_record; answer (JBool true); no_record] unreachable in
  let st := mkPollingState 2 0 true in
  attempts st = Z.of_nat 2
  /\ existsb is_finished (observations w0 2) = false
  /\ consecutiveNullResponses st = trailing_indeterminate (observations w0 2)
  /\ (forall m, 2%nat = S m -> observation w0 m = Running ->
                consecutiveNullResponses st = 0).
Proof.
  intros w0 st.
  apply (proj1 (counter_is_trailing_indeterminate (JStr "scan-1") 5 1 3 w0)
           2%nat st
           (paused 1 (probed (JStr "scan-1") (paused 1 (probed (JStr "scan-1") w0))))).
  reflexivity.
Defined.

(* ===================================================================== *)
(** ** The initialization timeout *)
(* ===================================================================== *)

(** [ceil_div a b] is the least integer not below [a / b]. *)
Lemma ceil_div_spec (a b : Z) :
  0 < b -> (ceil_div a b - 1) * b < a <= ceil_div a b * b.
Proof.
  intros Hb. unfold ceil_div.
  pose proof (Z.mul_div_le (- a) b Hb).
  pose proof (Z.mul_succ_div_gt (- a) b Hb).
  nia.
Qed.

Lemma ceil_div_pos (a b : Z) : 0 < a -> 0 < b -> 0 < ceil_div a b.
Proof.
  intros Ha Hb. pose proof (ceil_div_spec a b Hb). nia.
Qed.

Section Timeout.

Variable scanID : JSValue.
Variables maxAttempts intervalMs initializationTimeoutMs : Z.
Variable w0 : World.

Let T := maxConsecutiveNullResponses intervalMs initializationTimeoutMs.
Let after := state_after scanID maxAttempts intervalMs initializationTimeoutMs.
Let session :=
  pollUntilScanComplete scanID maxAttempts intervalMs initializationTimeoutMs.

(** Below the threshold and within the budget, indeterminate observations
    keep the session polling, counting. *)
Lemma indeterminate_keeps_polling (k : nat) :
  Z.of_nat k < T ->
  Z.of_nat k <= maxAttempts ->
  (forall i, (i < k)%nat -> observation w0 i = Indeterminate) ->
  exists st w,
    after k w0 = Some (st, w)
    /\ attempts st = Z.of_nat k
    /\ consecutiveNullResponses st = Z.of_nat k
    /\ scanStarted st = false.
Proof.
  induction k as [| k IH]; intros HT Hmax Hall.
  - exists initial_state, w0. now repeat split.
  - destruct IH as (st & w & Hk & Ha & Hc & Hs); [lia | lia | auto |].
    exists (after_indeterminate st), (paused intervalMs (probed scanID w)).
    split; [| cbn [after_indeterminate attempts consecutiveNullResponses
                     scanStarted]; repeat split; try lia; exact Hs].
    apply state_after_next with st w; [exact Hk | lia |].
    rewrite poll_iteration_spec, (state_after_observation _ _ _ _ _ _ _ _ Hk).
    rewrite Hall, Hs by lia.
    destruct (Z.leb_spec
                (maxConsecutiveNullResponses intervalMs initializationTimeoutMs)
                (consecutiveNullResponses st + 1)); [| reflexivity].
    unfold T in *. lia.
Qed.

(** A session that ends with [initialization_timeout] has seen nothing
    but indeterminate observations, as many as the threshold. *)
Lemma timeout_session_shape (st : PollingState) (w' : World) :
  0 < T ->
  session w0 = (Returned (InitializationTimeout, st), w') ->
  attempts st = T
  /\ consecutiveNullResponses st = T
  /\ scanStarted st = false
  /\ T <= maxAttempts
  /\ forall i, Z.of_nat i < T -> observation w0 i = Indeterminate.
Proof.
  intros HT Hrun.
  destruct (session_end scanID maxAttempts intervalMs initializationTimeoutMs w0)
    as (k & stk & wk & Hk & [[_ Hend] | (Hlt & r & st' & Hit & _ & Hend)]);
    fold session in Hend; rewrite Hrun in Hend; [discriminate |].
  injection Hend as <- <- _.
  pose proof (state_after_observation _ _ _ _ _ _ _ _ Hk) as Hobs.
  destruct (state_after_inv _ _ _ _ _ _ _ _ Hk) as [Ha _ Hc Hs Hf Hw _ _].
  apply poll_iteration_return_cases in Hit
    as [(Hr & _) | [(Hr & _) | (_ & Ho & Hst & Hle & ->)]]; try discriminate.
  rewrite Hobs in Ho. unfold T in *.
  rewrite Hst in Hs. symmetry in Hs.
  destruct (all_indeterminate _ Hs Hf) as [Htr Hnth].
  rewrite observations_length in Htr, Hnth.
  assert (Hk' : consecutiveNullResponses stk = Z.of_nat k) by congruence.
  assert (HkT : Z.of_nat k < T).
  { destruct k as [| k]; [lia |]. rewrite <- Hk'. now apply Hw. }
  cbn [after_indeterminate attempts consecutiveNullResponses scanStarted].
  repeat split; try lia; try assumption.
  intros i Hi.
  destruct (Nat.eq_dec i k) as [-> | Hne]; [exact Ho |].
  rewrite <- (nth_observations w0 k i) by lia. apply Hnth. lia.
Qed.

(** The other way round. *)
Lemma indeterminate_until_threshold_times_out :
  0 < T ->
  T <= maxAttempts ->
  (forall i, Z.of_nat i < T -> observation w0 i = Indeterminate) ->
  exists st w',
    session w0 = (Returned (InitializationTimeout, st), w')
    /\ attempts st = T
    /\ consecutiveNullResponses st = T.
Proof.
  intros HT Hmax Hall.
  destruct (indeterminate_keeps_polling (Z.to_nat (T - 1)))
    as (st & w & Hk & Ha & Hc & Hs); [lia | lia | intros; apply Hall; lia |].
  exists (after_indeterminate st), (probed scanID w).
  split; [| cbn [after_indeterminate attempts consecutiveNullResponses]; lia].
  apply session_returns with (Z.to_nat (T - 1)) st w; [exact Hk | lia |].
  rewrite poll_iteration_spec, (state_after_observation _ _ _ _ _ _ _ _ Hk).
  rewrite Hall, Hs by lia.
  destruct (Z.leb_spec
              (maxConsecutiveNullResponses intervalMs initializationTimeoutMs)
              (consecutiveNullResponses st + 1)); [reflexivity |].
  unfold T in *. lia.
Qed.

End Timeout.

(** C2. With a positive interval and a positive timeout, the threshold
    [maxConsecutiveNullResponses] is the ceiling of their quotient, and a
    session ends with [initialization_timeout] exactly when its first
    threshold-many observations are all Indeterminate (so no Running and no
    Finished among them) and the budget allows that many; it then ends at
    the observation that brings the counter to the threshold, with
    [attempts] and the counter both equal to it and [scanStarted] unset.
    Never before: as long as the session is polling and has seen no Running
    observation, the counter is below the threshold. *)
Theorem initialization_timeout_exactly_at_threshold (scanID : JSValue)
    (maxAttempts intervalMs initializationTimeoutMs : Z) (w0 : World) :
  0 < intervalMs ->
  0 < initializationTimeoutMs ->
  let T := maxConsecutiveNullResponses intervalMs initializationTimeoutMs in
  (T - 1) * intervalMs < initializationTimeoutMs <= T * intervalMs
  /\ ((exists st w',
          pollUntilScanComplete scanID maxAttempts intervalMs
            initializationTimeoutMs w0
          = (Returned (InitializationTimeout, st), w'))
      <-> (T <= maxAttempts
           /\ forall i, Z.of_nat i < T -> observation w0 i = Indeterminate))
  /\ (forall st w',
         pollUntilScanComplete scanID maxAttempts intervalMs
           initializationTimeoutMs w0
         = (Returned (InitializationTimeout, st), w') ->
         attempts st = T /\ consecutiveNullResponses st = T
         /\ scanStarted st = false)
  /\ (forall k st w,
         state_after scanID maxAttempts intervalMs initializationTimeoutMs k w0
           = Some (st, w) ->
         scanStarted st = false ->
         consecutiveNullResponses st < T).
Proof.
  intros Hint Hinit T.
  assert (HT : 0 < T) by now apply ceil_div_pos.
  split; [now apply ceil_div_spec |]. split; [split |]; [| | split].
  - intros (st & w' & Hrun).
    now apply (timeout_session_shape _ _ _ _ _ _ _ HT) in Hrun.
  - intros [Hmax Hall].
    destruct (indeterminate_until_threshold_times_out scanID maxAttempts
                intervalMs initializationTimeoutMs w0 HT Hmax Hall)
      as (st & w' & Hrun & _).
    now exists st, w'.
  - intros st w' Hrun.
    now apply (timeout_session_shape _ _ _ _ _ _ _ HT) in Hrun.
  - intros k st w Hk Hst.
    destruct (state_after_inv _ _ _ _ _ _ _ _ Hk) as [_ _ Hc _ _ Hw _ _].
    destruct k as [| k]; [| now apply Hw].
    rewrite Hc. cbn. exact HT.
Qed.

Lemma initialization_timeout_exactly_at_threshold_witness :
  let w0 := world_of [no_record; unreachable; no_record] (answer (JBool true)) in
  let T := maxConsecutiveNullResponses 2 5 in
  T = 3
  /\ (T - 1) * 2 < 5 <= T * 2
  /\ ((exists st w',
          pollUntilScanComplete (JStr "scan-1") 5 2 5 w0
          = (Returned (InitializationTimeout, st), w'))
      <-> (T <= 5 /\ forall i, Z.of_nat i < T -> observation w0 i = Indeterminate)).
Proof.
  intros w0 T. split; [reflexivity |].
  destruct (initialization_timeout_exactly_at_threshold (JStr "scan-1") 5 2 5 w0
              ltac:(lia) ltac:(lia)) as (Hceil & Hiff & _).
  split; [exact Hceil | exact Hiff].
Defined.

(* ===================================================================== *)
(** ** The scenarios of the specification *)
(* ===================================================================== *)

(** A: three indeterminate observations with a threshold of 3. *)
Example scenario_A :
  fst (pollUntilScanComplete (JStr "scan-1") 5 1 3
         (world_of [no_record; no_record; no_record] unreachable))
  = Returned (InitializationTimeout, mkPollingState 3 3 false).
Proof. reflexivity. Qed.

(** B: running, then finished. *)
Example scenario_B :
  fst (pollUntilScanComplete (JStr "scan-1") 5 1 3
         (world_of [answer (JBool true); answer (JBool false)] unreachable))
  = Returned (Completed, mkPollingState 2 0 true).
Proof. reflexivity. Qed.

(** C: running, then indeterminate. *)
Example scenario_C :
  fst (pollUntilScanComplete (JStr "scan-1") 5 1 3
         (world_of [answer (JBool true); no_record] unreachable))
  = Returned (Cancelled, mkPollingState 2 1 true).
Proof. reflexivity. Qed.

(** D: a budget of two attempts, running twice. *)
Example scenario_D :
  fst (pollUntilScanComplete (JStr "scan-1") 2 1 3
         (world_of [answer (JBool true); answer (JBool true)] unreachable))
  = Returned (MaxAttemptsReached, mkPollingState 2 0 true).
Proof. reflexivity. Qed.

(** A negative budget is passed through by [number_or]: the loop is not
    entered and no probe is made. *)
Example negative_budget :
  pollUntilScanComplete (JStr "scan-1") (number_or (Some (-5)) 100) 1 3
    (world_of [] unreachable)
  = (Returned (MaxAttemptsReached, initial_state), world_of [] unreachable).
Proof. reflexivity. Qed.

(* ===================================================================== *)
(** ** More on the gate, the start of a scan and the observations *)
(* ===================================================================== *)

(** The gate, by the answer it gets. *)
Lemma checkScanInProgress_returns (w : World) :
  exists v,
    checkScanInProgress w
      = (Returned v, advance (Fetch CheckScanInProgressQuery) w)
    /\ (v = JBool true
        \/ exists r j,
            incoming w 0 = HttpResponse r /\ ok r = true /\ body r = Some j
            /\ is_nullish j = false /\ v = in_progress_field j).
Proof.
  unfold checkScanInProgress, try_catch, bind, fetch, json, lift, in_progress_field.
  destruct (incoming w 0) as [msg | r]; [eexists; split; [reflexivity | now left] |].
  destruct (ok r) eqn:Hok; cbn; [| eexists; split; [reflexivity | now left]].
  destruct (body r) as [j |] eqn:Hbody; cbn;
    [| eexists; split; [reflexivity | now left]].
  destruct (is_nullish j) eqn:Hj.
  - destruct j; try discriminate; cbn; eexists; split; try reflexivity; now left.
  - rewrite (get_prop_get_opt _ _ Hj). cbn.
    eexists; split; [reflexivity |]. right. now exists r, j.
Qed.

(** The gate never throws, whatever the endpoint answers, and sends exactly
    one request.  It answers [true], or else what an HTTP-ok response with
    a JSON body other than [null] holds at
    [data.checkScanInProgress.isInProgress] (possibly [undefined]). *)
Theorem gate_never_throws (w : World) :
  exists v,
    checkScanInProgress w
      = (Returned v, advance (Fetch CheckScanInProgressQuery) w)
    /\ (v = JBool true
        \/ exists r j,
            incoming w 0 = HttpResponse r /\ ok r = true /\ body r = Some j
            /\ is_nullish j = false /\ v = in_progress_field j).
Proof.
  exact (checkScanInProgress_returns w).
Qed.

(** The start of a scan, by the answer it gets. *)
Lemma initiateScanning_spec (w : World) :
  snd (initiateScanning w) = advance (Fetch ScanAllMutation) w
  /\ (start_failed (incoming w 0) = true ->
      exists e, fst (initiateScanning w) = Thrown e)
  /\ (start_failed (incoming w 0) = false ->
      exists r j,
        incoming w 0 = HttpResponse r /\ ok r = true /\ body r = Some j
        /\ fst (initiateScanning w) = Returned (scan_id_field j)
        /\ truthy (scan_id_field j) = true).
Proof.
  split; [apply initiateScanning_world |].
  unfold initiateScanning, bind, fetch, json, lift, start_failed, scan_id_field.
  destruct (incoming w 0) as [msg | r];
    [split; [intros _; eexists; reflexivity | discriminate] |].
  destruct (ok r) eqn:Hok; cbn;
    [| split; [intros _; eexists; reflexivity | discriminate]].
  destruct (body r) as [j |] eqn:Hbody; cbn;
    [| split; [intros _; eexists; reflexivity | discriminate]].
  destruct (is_nullish j) eqn:Hj.
  - destruct j; try discriminate; cbn;
      (split; [intros _; eexists; reflexivity | discriminate]).
  - rewrite (get_prop_get_opt _ _ Hj). cbn.
    destruct (truthy _) eqn:Ht; cbn; split; try discriminate.
    + intros _. exists r, j. now repeat split.
    + intros _. eexists; reflexivity.
Qed.




Lemma probe_not_failed (f : FetchResult) :
  probe_failed f = false -> is_nullish (status_field f) = false.
Proof.
  unfold probe_failed. destruct f as [msg | r]; [discriminate |].
  intros H. apply orb_false_iff in H as [_ H].
  destruct (body r); [exact H | discriminate].
Qed.

(** How an answer of the endpoint is observed.  Indeterminate: exactly the
    failed probes.  Finished: exactly a reported status [false].  Running:
    every other reported status, so not only [true] but also a number or a
    string, should the endpoint send one. *)
Theorem observation_by_answer (f : FetchResult) :
  (observe f = Indeterminate <-> probe_failed f = true)
  /\ (observe f = Finished
      <-> probe_failed f = false /\ status_field f = JBool false)
  /\ (observe f = Running
      <-> probe_failed f = false /\ status_field f <> JBool false).
Proof.
  rewrite observe_spec. unfold classify.
  destruct (probe_failed f) eqn:Hf.
  - cbn. repeat split; try discriminate; intros [H _]; discriminate.
  - pose proof (probe_not_failed f Hf) as Hn.
    destruct (status_field f) as [| | [|] | n | s | items | fields];
      try discriminate; cbn;
      repeat split; try discriminate; try congruence;
      intros [_ H]; try discriminate; congruence.
Qed.

(* ===================================================================== *)
(** ** The attempt budget *)
(* ===================================================================== *)

Lemma session_attempts_bound (scanID : JSValue)
    (maxAttempts intervalMs initializationTimeoutMs : Z) (w0 : World)
    (r : PollResult) (st : PollingState) (w' : World) :
  pollUntilScanComplete scanID maxAttempts intervalMs initializationTimeoutMs w0
    = (Returned (r, st), w') ->
  0 <= attempts st <= Z.max 0 maxAttempts
  /\ (r <> MaxAttemptsReached -> 1 <= attempts st).
Proof.
  intros Hrun.
  destruct (session_end scanID maxAttempts intervalMs initializationTimeoutMs w0)
    as (k & stk & wk & Hk & [[Hge Hend] | (Hlt & r' & st' & Hit & Hatt & Hend)]);
    rewrite Hrun in Hend; injection Hend as -> -> _;
    destruct (state_after_inv _ _ _ _ _ _ _ _ Hk) as [Ha Hb _ _ _ _ _ _].
  - split; [lia | congruence].
  - split; [lia | intros _; lia].
Qed.

(** A session never makes more probes than the budget allows: the final
    attempts count, which is the number of probes sent, is at most
    [maxAttempts] (none at all for a budget of zero or below), and at least
    1 unless the session ends with [max_attempts_reached]. *)
Theorem session_within_budget (scanID : JSValue)
    (maxAttempts intervalMs initializationTimeoutMs : Z) (w0 : World) :
  exists r st w' new,
    pollUntilScanComplete scanID maxAttempts intervalMs initializationTimeoutMs w0
      = (Returned (r, st), w')
    /\ events w' = new ++ events w0
    /\ fetch_count new = attempts st
    /\ 0 <= attempts st <= Z.max 0 maxAttempts
    /\ (r = MaxAttemptsReached \/ 1 <= attempts st).
Proof.
  destruct (session_trace scanID maxAttempts intervalMs initializationTimeoutMs w0)
    as (r & st & w' & new & Hrun & Hr & Hev & Hcnt & _).
  destruct (session_attempts_bound _ _ _ _ _ _ _ _ Hrun) as [Hb Hone].
  exists r, st, w', new. repeat split; try assumption; try lia.
  destruct Hr as [<- | [<- | [<- | [<- | []]]]];
    try (right; apply Hone; discriminate). now left.
Qed.

(* ===================================================================== *)
(** ** What [main] sends *)
(* ===================================================================== *)

(** [main] never throws, and the gate decides what it does: on a truthy
    answer of the gate it stops, having sent the gate's query and nothing
    else; on a falsy one it goes on to send the mutation that starts a
    scan. *)
Theorem main_gate_decides (env : Env) (w : World) :
  exists v,
    fst (checkScanInProgress w) = Returned v
    /\ ((truthy v = true
         /\ main env w = (Returned tt, advance (Fetch CheckScanInProgressQuery) w))
        \/ (truthy v = false
            /\ exists w' later,
                main env w = (Returned tt, w')
                /\ events w'
                   = later ++ Fetch ScanAllMutation
                        :: Fetch CheckScanInProgressQuery :: events w)).
Proof.
  destruct (checkScanInProgress_returns w) as (v & Hgate & _).
  exists v. split; [now rewrite Hgate |].
  destruct (truthy v) eqn:Hv.
  - left. split; [reflexivity |]. now apply main_refuses with v.
  - right. split; [reflexivity |].
    destruct (main_starts_scan env _ _ _ Hgate Hv) as (w' & later & Hmain & Hev).
    now exists w', later.
Qed.

(** When the gate cannot reach the endpoint, or gets an HTTP error, a body
    that is not JSON or the body [null], [main] starts nothing: the gate's
    query is the only request it sends. *)
Theorem main_starts_nothing_when_gate_fails (env : Env) (w : World) :
  match incoming w 0 with
  | NetworkError _ => True
  | HttpResponse r => ok r = false \/ body r = None \/ body r = Some JNull
  end ->
  main env w = (Returned tt, advance (Fetch CheckScanInProgressQuery) w)
  /\ events (snd (main env w)) = Fetch CheckScanInProgressQuery :: events w.
Proof.
  intros Hfail.
  assert (Hmain : main env w
                  = (Returned tt, advance (Fetch CheckScanInProgressQuery) w)).
  { apply main_refuses with (JBool true); [| reflexivity].
    now apply checkScanInProgress_fail_safe. }
  split; [exact Hmain |]. now rewrite Hmain.
Qed.

Lemma main_starts_nothing_when_gate_fails_witness :
  let w := world_of [HttpResponse (mkResponse 502 None)] unreachable in
  main default_env w = (Returned tt, advance (Fetch CheckScanInProgressQuery) w)
  /\ events (snd (main default_env w)) = Fetch CheckScanInProgressQuery :: events w.
Proof.
  intros w. apply (main_starts_nothing_when_gate_fails default_env w).
  left. reflexivity.
Defined.

(** When the gate lets [main] through and starting the scan fails, [main]
    catches the error and does not poll: the gate's query and the mutation
    are the only two requests it sends. *)
Theorem main_does_not_poll_after_failed_start (env : Env) (w : World)
    (v : JSValue) :
  fst (checkScanInProgress w) = Returned v ->
  truthy v = false ->
  start_failed (incoming w 1) = true ->
  main env w
  = (Returned tt,
     advance (Fetch ScanAllMutation) (advance (Fetch CheckScanInProgressQuery) w)).
Proof.
  intros Hv Hfalsy Hfail.
  destruct (checkScanInProgress_returns w) as (v' & Hgate & _).
  rewrite Hgate in Hv. injection Hv as ->.
  unfold main, try_catch, bind. rewrite Hgate, Hfalsy.
  set (w1 := advance (Fetch CheckScanInProgressQuery) w).
  destruct (initiateScanning_spec w1) as (Hw & Hthrow & _).
  destruct (Hthrow Hfail) as (e & He).
  destruct (initiateScanning w1) as [c w2]. cbn in Hw, He. subst. reflexivity.
Qed.

Lemma main_does_not_poll_after_failed_start_witness :
  let w := world_of [in_progress (JBool false); HttpResponse (mkResponse 500 None)]
             no_record in
  main default_env w
  = (Returned tt,
     advance (Fetch ScanAllMutation) (advance (Fetch CheckScanInProgressQuery) w)).
Proof.
  intros w.
  apply (main_does_not_poll_after_failed_start default_env w (JBool false));
    reflexivity.
Defined.



(* ===================================================================== *)
(** ** Pauses *)
(* ===================================================================== *)

Lemma sleep_count_cons (ev : Event) (evs : list Event) :
  sleep_count (ev :: evs) = (if is_sleep ev then 1 else 0) + sleep_count evs.
Proof.
  unfold sleep_count. cbn [filter].
  destruct (is_sleep ev); cbn [List.length]; lia.
Qed.

Section PauseFacts.

Variable scanID : JSValue.
Variables maxAttempts intervalMs initializationTimeoutMs : Z.
Variable w0 : World.

Let after := state_after scanID maxAttempts intervalMs initializationTimeoutMs.
Let session :=
  pollUntilScanComplete scanID maxAttempts intervalMs initializationTimeoutMs.

(** While the session is polling it has paused once per observation. *)
Lemma state_after_sleeps (k : nat) :
  forall st w,
    after k w0 = Some (st, w) ->
    sleep_count (events w) = sleep_count (events w0) + Z.of_nat k
    /\ total_sleep (events w) = total_sleep (events w0) + Z.of_nat k * intervalMs.
Proof.
  induction k as [| k IH]; intros st' w' Hk.
  - injection Hk as <- <-. split; lia.
  - destruct (state_after_S _ _ _ _ _ _ _ _ Hk) as (st & w & Hprev & _ & Hit).
    destruct (IH _ _ Hprev) as [Hc Ht].
    destruct (poll_iteration_returns scanID intervalMs initializationTimeoutMs st w)
      as [(st'' & Hit' & _) | (r & st'' & Hit' & _)];
      rewrite Hit' in Hit; [| discriminate].
    injection Hit as _ <-.
    cbn [paused probed advance events total_sleep].
    rewrite !sleep_count_cons. cbn [is_sleep]. split; lia.
Qed.

Lemma session_sleeps (r : PollResult) (st : PollingState) (w' : World) :
  session w0 = (Returned (r, st), w') ->
  total_sleep (events w')
  = total_sleep (events w0)
    + (sleep_count (events w') - sleep_count (events w0)) * intervalMs
  /\ ((r = MaxAttemptsReached
       /\ sleep_count (events w') = sleep_count (events w0) + attempts st)
      \/ (r <> MaxAttemptsReached
          /\ sleep_count (events w') = sleep_count (events w0) + attempts st - 1)).
Proof.
  intros Hrun.
  destruct (session_end scanID maxAttempts intervalMs initializationTimeoutMs w0)
    as (k & stk & wk & Hk & [[_ Hend] | (_ & r' & st' & Hit & Hatt & Hend)]);
    fold session in Hend; rewrite Hrun in Hend; injection Hend as -> -> ->;
    destruct (state_after_sleeps _ _ _ Hk) as [Hc Ht];
    pose proof (inv_attempts _ _ _ _ _ _ _ _ (state_after_inv _ _ _ _ _ _ _ _ Hk))
      as Ha.
  - split; [lia |]. left. split; [reflexivity | lia].
  - cbn [probed advance events total_sleep]. rewrite sleep_count_cons.
    cbn [is_sleep]. split; [lia |]. right. split; [| lia].
    apply poll_iteration_return_cases in Hit
      as [(-> & _) | [(-> & _) | (-> & _)]]; discriminate.
Qed.

End PauseFacts.

(** The session pauses for the configured interval after every probe that
    does not end it, and does nothing else in between: it has paused
    [attempts - 1] times when a probe ends it, and [attempts] times when the
    budget runs out, since the loop pauses after the last probe too before
    it reports [max_attempts_reached]. *)
Theorem session_pauses (scanID : JSValue)
    (maxAttempts intervalMs initializationTimeoutMs : Z) (w0 : World) :
  exists r st w',
    pollUntilScanComplete scanID maxAttempts intervalMs initializationTimeoutMs w0
      = (Returned (r, st), w')
    /\ total_sleep (events w')
       = total_sleep (events w0)
         + (sleep_count (events w') - sleep_count (events w0)) * intervalMs
    /\ ((r = MaxAttemptsReached
         /\ sleep_count (events w') = sleep_count (events w0) + attempts st)
        \/ (r <> MaxAttemptsReached
            /\ sleep_count (events w')
               = sleep_count (events w0) + attempts st - 1)).
Proof.
  destruct (session_trace scanID maxAttempts intervalMs initializationTimeoutMs w0)
    as (r & st & w' & new & Hrun & _).
  exists r, st, w'. split; [exact Hrun |].
  now apply session_sleeps with scanID maxAttempts initializationTimeoutMs.
Qed.

(** With a positive interval and timeout, a session that ends with
    [initialization_timeout] has paused for one interval less than the
    threshold, which is strictly less than the configured timeout: the
    timeout is reported before that much time has been spent pausing. *)
Theorem initialization_timeout_reported_early (scanID : JSValue)
    (maxAttempts intervalMs initializationTimeoutMs : Z) (w0 : World)
    (st : PollingState) (w' : World) :
  0 < intervalMs ->
  0 < initializationTimeoutMs ->
  pollUntilScanComplete scanID maxAttempts intervalMs initializationTimeoutMs w0
    = (Returned (InitializationTimeout, st), w') ->
  let T := maxConsecutiveNullResponses intervalMs initializationTimeoutMs in
  total_sleep (events w') - total_sleep (events w0) = (T - 1) * intervalMs
  /\ (T - 1) * intervalMs < initializationTimeoutMs.
Proof.
  intros Hint Hinit Hrun T.
  assert (HT : 0 < T) by now apply ceil_div_pos.
  destruct (timeout_session_shape _ _ _ _ _ _ _ HT Hrun) as (Ha & _).
  destruct (session_sleeps _ _ _ _ _ _ _ _ Hrun) as [Ht [[Hr _] | [_ Hc]]];
    [discriminate |].
  pose proof (ceil_div_spec initializationTimeoutMs intervalMs Hint) as Hceil.
  fold (maxConsecutiveNullResponses intervalMs initializationTimeoutMs) in Hceil.
  fold T in Hceil, Ha.
  split; [| lia].
  rewrite Ht.
  replace (sleep_count (events w') - sleep_count (events w0)) with (T - 1) by lia.
  lia.
Qed.

Lemma initialization_timeout_reported_early_witness :
  let w0 := world_of [no_record; no_record; no_record] no_record in
  let run := pollUntilScanComplete (JStr "scan-1") 5 2 5 w0 in
  fst run = Returned (InitializationTimeout, mkPollingState 3 3 false)
  /\ total_sleep (events (snd run)) - total_sleep (events w0) = (3 - 1) * 2
  /\ (3 - 1) * 2 < 5.
Proof.
  intros w0 run. split; [reflexivity |].
  apply (initialization_timeout_reported_early (JStr "scan-1") 5 2 5 w0
           (mkPollingState 3 3 false) (snd run)); [lia | lia | reflexivity].
Defined.

(* ===================================================================== *)
(** ** What the outcome depends on *)
(* ===================================================================== *)

Lemma poll_iteration_control (scanID : JSValue)
    (intervalMs initializationTimeoutMs : Z) (st : PollingState) (w : World) :
  fst (poll_iteration scanID intervalMs initializationTimeoutMs st w)
  = Returned (next_control intervalMs initializationTimeoutMs st (observation w 0)).
Proof.
  rewrite poll_iteration_spec. unfold next_control.
  destruct (observation w 0); try reflexivity.
  destruct (scanStarted st); [reflexivity |].
  destruct (_ <=? _); reflexivity.
Qed.

Lemma poll_iteration_by_control (scanID : JSValue)
    (intervalMs initializationTimeoutMs : Z) (st : PollingState) (w : World)
    (c : Control) :
  next_control intervalMs initializationTimeoutMs st (observation w 0) = c ->
  exists w',
    poll_iteration scanID intervalMs initializationTimeoutMs st w = (Returned c, w').
Proof.
  intros <-.
  pose proof (poll_iteration_control scanID intervalMs initializationTimeoutMs st w)
    as H.
  destruct (poll_iteration _ _ _ st w) as [c w']. cbn in H. subst c.
  now exists w'.
Qed.

Section Agreement.

Variables scanID scanID' : JSValue.
Variables maxAttempts maxAttempts' intervalMs initializationTimeoutMs : Z.
Variables w0 w0' : World.

Hypothesis same_observations :
  forall i, Z.of_nat i < maxAttempts -> observation w0 i = observation w0' i.
Hypothesis budget_covers :
  forall k st w,
    state_after scanID maxAttempts intervalMs initializationTimeoutMs k w0
      = Some (st, w) ->
    (attempts st < maxAttempts <-> attempts st < maxAttempts').

(** Two sessions that make the same observations, and whose budgets allow
    the same passes, go through the same locals. *)
Lemma state_after_agree (k : nat) :
  forall st w,
    state_after scanID maxAttempts intervalMs initializationTimeoutMs k w0
      = Some (st, w) ->
    exists w'',
      state_after scanID' maxAttempts' intervalMs initializationTimeoutMs k w0'
        = Some (st, w'').
Proof.
  induction k as [| k IH]; intros st' w' Hk.
  - injection Hk as <- <-. now exists w0'.
  - destruct (state_after_S _ _ _ _ _ _ _ _ Hk) as (st & w & Hprev & Hlt & Hit).
    destruct (IH _ _ Hprev) as (w1 & Hprev').
    pose proof (inv_attempts _ _ _ _ _ _ _ _ (state_after_inv _ _ _ _ _ _ _ _ Hprev))
      as Ha.
    pose proof (poll_iteration_control scanID intervalMs initializationTimeoutMs
                  st w) as Hc.
    rewrite Hit in Hc. cbn in Hc. injection Hc as Hc.
    rewrite (state_after_observation _ _ _ _ _ _ _ _ Hprev) in Hc.
    rewrite same_observations in Hc by lia.
    rewrite <- (state_after_observation _ _ _ _ _ _ _ _ Hprev') in Hc.
    symmetry in Hc.
    destruct (poll_iteration_by_control scanID' _ _ _ _ _ Hc) as (w'' & Hit').
    exists w''. apply state_after_next with st w1; try assumption.
    now apply (budget_covers _ _ _ Hprev).
Qed.

Lemma session_agree :
  fst (pollUntilScanComplete scanID maxAttempts intervalMs
         initializationTimeoutMs w0)
  = fst (pollUntilScanComplete scanID' maxAttempts' intervalMs
           initializationTimeoutMs w0').
Proof.
  destruct (session_end scanID maxAttempts intervalMs initializationTimeoutMs w0)
    as (k & st & w & Hk & Hend).
  destruct (state_after_agree _ _ _ Hk) as (w1 & Hk').
  pose proof (inv_attempts _ _ _ _ _ _ _ _ (state_after_inv _ _ _ _ _ _ _ _ Hk))
    as Ha.
  pose proof (budget_covers _ _ _ Hk) as Hb.
  destruct Hend as [[Hge Hrun] | (Hlt & r & st' & Hit & _ & Hrun)]; rewrite Hrun.
  - rewrite (session_stops _ _ _ _ _ _ _ _ Hk'); [reflexivity | lia].
  - pose proof (poll_iteration_control scanID intervalMs initializationTimeoutMs
                  st w) as Hc.
    rewrite Hit in Hc. cbn in Hc. injection Hc as Hc.
    rewrite (state_after_observation _ _ _ _ _ _ _ _ Hk) in Hc.
    rewrite same_observations in Hc by lia.
    rewrite <- (state_after_observation _ _ _ _ _ _ _ _ Hk') in Hc.
    symmetry in Hc.
    destruct (poll_iteration_by_control scanID' _ _ _ _ _ Hc) as (w'' & Hit').
    rewrite (session_returns _ _ _ _ _ _ _ _ _ _ _ Hk' (proj1 Hb Hlt) Hit').
    reflexivity.
Qed.

End Agreement.

(** The result of a session and the final values of its locals depend on
    nothing but the observations made within the budget: two sessions whose
    first [maxAttempts] observations are the same end alike, whatever the
    scan identifiers are and whatever else the endpoint's answers hold or
    the endpoint would have answered later. *)
Theorem outcome_depends_on_observations_only (scanID scanID' : JSValue)
    (maxAttempts intervalMs initializationTimeoutMs : Z) (w0 w0' : World) :
  (forall i, Z.of_nat i < maxAttempts -> observation w0 i = observation w0' i) ->
  fst (pollUntilScanComplete scanID maxAttempts intervalMs
         initializationTimeoutMs w0)
  = fst (pollUntilScanComplete scanID' maxAttempts intervalMs
           initializationTimeoutMs w0').
Proof.
  intros Hsame. apply session_agree; [exact Hsame | tauto].
Qed.

Lemma outcome_depends_on_observations_only_witness :
  let w0 := world_of [no_record; answer (JBool true)] (answer (JBool false)) in
  let w0' := world_of [unreachable; answer (JStr "yes")] no_record in
  fst (pollUntilScanComplete (JStr "scan-1") 2 1 3 w0)
  = fst (pollUntilScanComplete (JStr "scan-2") 2 1 3 w0').
Proof.
  intros w0 w0'.
  apply (outcome_depends_on_observations_only (JStr "scan-1") (JStr "scan-2")
           2 1 3 w0 w0').
  intros [| [| i]] Hi; [reflexivity | reflexivity | lia].
Defined.

(** A result other than [max_attempts_reached] does not depend on the
    budget: a session that ends with one under some budget ends with the
    same result and the same final locals under any budget that allows as
    many attempts as it took. *)
Theorem definitive_outcome_budget_independent (scanID : JSValue)
    (maxAttempts maxAttempts' intervalMs initializationTimeoutMs : Z)
    (w0 : World) (r : PollResult) (st : PollingState) (w' : World) :
  pollUntilScanComplete scanID maxAttempts intervalMs initializationTimeoutMs w0
    = (Returned (r, st), w') ->
  r <> MaxAttemptsReached ->
  attempts st <= maxAttempts' ->
  pollUntilScanComplete scanID maxAttempts' intervalMs initializationTimeoutMs w0
    = (Returned (r, st), w').
Proof.
  intros Hrun Hr Hbudget.
  destruct (session_end scanID maxAttempts intervalMs initializationTimeoutMs w0)
    as (k & stk & wk & Hk & [[_ Hend] | (Hlt & r' & st' & Hit & Hatt & Hend)]);
    rewrite Hrun in Hend; injection Hend as -> -> ->; [congruence |].
  pose proof (inv_attempts _ _ _ _ _ _ _ _ (state_after_inv _ _ _ _ _ _ _ _ Hk))
    as Ha.
  assert (Hk' : forall n stn wn,
             (n <= k)%nat ->
             state_after scanID maxAttempts intervalMs initializationTimeoutMs n w0
               = Some (stn, wn) ->
             state_after scanID maxAttempts' intervalMs initializationTimeoutMs n w0
               = Some (stn, wn)).
  { induction n as [| n IH]; intros stn wn Hn Hsn; [exact Hsn |].
    destruct (state_after_S _ _ _ _ _ _ _ _ Hsn) as (sp & wp & Hprev & _ & Hitp).
    pose proof (inv_attempts _ _ _ _ _ _ _ _
                  (state_after_inv _ _ _ _ _ _ _ _ Hprev)) as Hap.
    apply state_after_next with sp wp; [apply IH; [lia | exact Hprev] | lia |
                                        exact Hitp]. }
  apply session_returns with k stk wk; [now apply Hk' | lia | exact Hit].
Qed.

Lemma definitive_outcome_budget_independent_witness :
  let w0 := world_of [answer (JBool true); answer (JBool false)] no_record in
  let run := pollUntilScanComplete (JStr "scan-1") 2 1 3 w0 in
  fst run = Returned (Completed, mkPollingState 2 0 true)
  /\ pollUntilScanComplete (JStr "scan-1") 100 1 3 w0
     = (Returned (Completed, mkPollingState 2 0 true), snd run).
Proof.
  intros w0 run. split; [reflexivity |].
  apply (definitive_outcome_budget_independent (JStr "scan-1") 2 100 1 3 w0
           Completed (mkPollingState 2 0 true) (snd run));
    [reflexivity | discriminate | cbn; lia].
Defined.

(* ===================================================================== *)
(** ** Success, and the narrowest initialization window *)
(* ===================================================================== *)

Lemma unfinished_observation (w : World) (k n : nat) :
  existsb is_finished (observations w k) = false ->
  (n < k)%nat ->
  observation w n <> Finished.
Proof.
  intros Hf Hn Hobs.
  assert (existsb is_finished (observations w k) = true); [| congruence].
  apply existsb_exists. exists Finished. split; [| reflexivity].
  rewrite <- Hobs. unfold observations. apply in_map, in_seq. lia.
Qed.

(** The polling function reports [success] for [completed] only, and it
    ends with [completed] exactly when the last observation it made was
    Finished. *)
Theorem success_iff_last_observation_finished (scanID : JSValue)
    (maxAttempts intervalMs initializationTimeoutMs : Z) (w0 : World) :
  exists r st w',
    pollUntilScanComplete scanID maxAttempts intervalMs initializationTimeoutMs w0
      = (Returned (r, st), w')
    /\ (success r = true <-> r = Completed)
    /\ (r = Completed
        <-> exists n, attempts st = Z.of_nat (S n) /\ observation w0 n = Finished).
Proof.
  destruct (session_end scanID maxAttempts intervalMs initializationTimeoutMs w0)
    as (k & st & w & Hk & Hend).
  pose proof (state_after_observation _ _ _ _ _ _ _ _ Hk) as Hobs.
  destruct (state_after_inv _ _ _ _ _ _ _ _ Hk) as [Ha _ _ _ Hf _ _ _].
  destruct Hend as [[_ Hrun] | (_ & r & st' & Hit & Hatt & Hrun)].
  - exists MaxAttemptsReached, st, w. split; [exact Hrun |].
    split; [split; discriminate |]. split; [discriminate |].
    intros (n & Hn & Hfin). exfalso.
    apply (unfinished_observation w0 k n Hf); [lia | exact Hfin].
  - exists r, st', (probed scanID w). split; [exact Hrun |].
    apply poll_iteration_return_cases in Hit
      as [(-> & Ho & _) | [(-> & Ho & _) | (-> & Ho & _)]];
      rewrite Hobs in Ho.
    + split; [split; reflexivity |]. split; [| reflexivity].
      intros _. exists k. split; [lia | exact Ho].
    + split; [split; discriminate |]. split; [discriminate |].
      intros (n & Hn & Hfin). assert (n = k) by lia. subst n. congruence.
    + split; [split; discriminate |]. split; [discriminate |].
      intros (n & Hn & Hfin). assert (n = k) by lia. subst n. congruence.
Qed.

(** When the interval is not shorter than the timeout the threshold is 1,
    and with a threshold of 1 or less (the interval not being 0, for which
    the quotient is not a number the threshold can be compared with) there
    is no initialization window at all: an Indeterminate first observation
    ends the session at once with [initialization_timeout], after a single
    probe and no pause. *)
Theorem first_indeterminate_times_out_without_window (scanID : JSValue)
    (maxAttempts intervalMs initializationTimeoutMs : Z) (w0 : World) :
  (0 < initializationTimeoutMs <= intervalMs ->
   maxConsecutiveNullResponses intervalMs initializationTimeoutMs = 1)
  /\ (intervalMs <> 0 ->
      maxConsecutiveNullResponses intervalMs initializationTimeoutMs <= 1 ->
      1 <= maxAttempts ->
      observation w0 0 = Indeterminate ->
      pollUntilScanComplete scanID maxAttempts intervalMs
        initializationTimeoutMs w0
      = (Returned (InitializationTimeout, mkPollingState 1 1 false),
         probed scanID w0)).
Proof.
  split.
  - intros [Hpos Hle]. unfold maxConsecutiveNullResponses.
    pose proof (ceil_div_spec initializationTimeoutMs intervalMs ltac:(lia)). nia.
  - intros _ HT Hmax Hobs.
    apply session_returns with 0%nat initial_state w0;
      [reflexivity | cbn; lia |].
    rewrite poll_iteration_spec, Hobs. cbn [initial_state scanStarted
                                             consecutiveNullResponses].
    destruct (Z.leb_spec
                (maxConsecutiveNullResponses intervalMs initializationTimeoutMs)
                (0 + 1)); [reflexivity | lia].
Qed.

Lemma first_indeterminate_times_out_without_window_witness :
  let w0 := world_of [unreachable] (answer (JBool true)) in
  maxConsecutiveNullResponses 60000 30000 = 1
  /\ pollUntilScanComplete (JStr "scan-1") 100 60000 30000 w0
     = (Returned (InitializationTimeout, mkPollingState 1 1 false),
        probed (JStr "scan-1") w0).
Proof.
  intros w0.
  destruct (first_indeterminate_times_out_without_window
              (JStr "scan-1") 100 60000 30000 w0) as [HT Hrun].
  split; [apply HT; lia |].
  apply Hrun; [lia | rewrite HT by lia; lia | lia | reflexivity].
Defined.

(* ===================================================================== *)
(** ** The cancellation tool: its gate and its mutation *)
(* ===================================================================== *)

Lemma truthy_not_nullish (v : JSValue) : truthy v = true -> is_nullish v = false.
Proof. destruct v; try discriminate; reflexivity. Qed.

Lemma get_opt_nullish (v : JSValue) (k : string) :
  is_nullish v = true -> get_opt v k = JUndefined.
Proof. destruct v; try discriminate; reflexivity. Qed.

Ltac gate_throws :=
  split; [reflexivity |];
  split; [discriminate |];
  split; [intros _; eexists; reflexivity | intros; congruence].

(** The tool's gate, by the answer it gets. *)
Lemma cancel_checkScanInProgress_spec (wc : CancelScan.World) :
  snd (CancelScan.checkScanInProgress wc)
  = CancelScan.advance CancelScan.CheckScanInProgress wc
  /\ (gate_answered (CancelScan.incoming wc 0) = true ->
      exists r j,
        CancelScan.incoming wc 0 = HttpResponse r /\ body r = Some j
        /\ fst (CancelScan.checkScanInProgress wc)
           = CancelScan.Returned (in_progress_field j))
  /\ (gate_answered (CancelScan.incoming wc 0) = false ->
      exists e, fst (CancelScan.checkScanInProgress wc) = CancelScan.Thrown e)
  /\ (forall r j,
         CancelScan.incoming wc 0 = HttpResponse r -> ok r = true ->
         body r = Some j -> is_nullish j = false ->
         gate_answered (CancelScan.incoming wc 0) = false ->
         fst (CancelScan.checkScanInProgress wc)
         = CancelScan.Thrown CancelScan.invalid_format).
Proof.
  unfold CancelScan.checkScanInProgress, CancelScan.try_catch, CancelScan.bind,
    CancelScan.fetch, CancelScan.json, CancelScan.lift, gate_answered,
    in_progress_field.
  destruct (CancelScan.incoming wc 0) as [msg | r]; [gate_throws |].
  destruct (body r) as [j |] eqn:Hbody; cbn;
    [| rewrite andb_false_r; gate_throws].
  destruct (ok r) eqn:Hok; cbn; [| gate_throws].
  destruct (is_nullish j) eqn:Hj.
  { rewrite (get_opt_nullish j "data" Hj). cbn.
    destruct j; try discriminate; cbn; gate_throws. }
  rewrite (get_prop_get_opt _ _ Hj). cbn.
  destruct (truthy (get_opt j "data")) eqn:Hd; cbn; [| gate_throws].
  destruct (truthy (get_opt (get_opt j "data") "checkScanInProgress")) eqn:Hc; cbn;
    [| gate_throws].
  split; [reflexivity |].
  split; [intros _; now exists r, j |].
  split; [discriminate | intros; congruence].
Qed.

Lemma falsy_get_opt (v : JSValue) (k : string) :
  truthy v = false -> get_opt v k = JUndefined.
Proof. destruct v; try discriminate; reflexivity. Qed.

(** What the launcher's gate returns when the endpoint does not say whether
    a scan is in progress: [true] from its [catch], or the [undefined] that
    the optional chain ends in. *)
Lemma launcher_gate_unanswered (w : World) :
  gate_answered (incoming w 0) = false ->
  fst (checkScanInProgress w) = Returned (JBool true)
  \/ fst (checkScanInProgress w) = Returned JUndefined.
Proof.
  unfold checkScanInProgress, try_catch, bind, fetch, json, lift, gate_answered.
  destruct (incoming w 0) as [msg | r]; [now left |].
  destruct (ok r); cbn; [| now left].
  destruct (body r) as [j |]; cbn; [| now left].
  destruct (is_nullish j) eqn:Hj.
  { destruct j; try discriminate; now left. }
  rewrite (get_prop_get_opt _ _ Hj). cbn. intros H. right.
  apply andb_false_iff in H as [H | H].
  - now rewrite (falsy_get_opt _ "checkScanInProgress" H).
  - now rewrite (falsy_get_opt _ "isInProgress" H).
Qed.

(** The tool's gate is the launcher's gate made strict.  It sends one
    request.  When the endpoint does say whether a scan is in progress, both
    gates return the same value; on every other answer the tool's gate
    throws, where the launcher's returns [true] or [undefined]; when the
    answer is HTTP-ok JSON (other than [null]) without the expected record,
    what it throws is the invalid-format error. *)
Theorem cancel_gate_is_strict (wc : CancelScan.World) (w : World) :
  CancelScan.incoming wc 0 = incoming w 0 ->
  snd (CancelScan.checkScanInProgress wc)
  = CancelScan.advance CancelScan.CheckScanInProgress wc
  /\ (gate_answered (incoming w 0) = true ->
      exists v,
        fst (CancelScan.checkScanInProgress wc) = CancelScan.Returned v
        /\ fst (checkScanInProgress w) = Returned v)
  /\ (gate_answered (incoming w 0) = false ->
      exists e, fst (CancelScan.checkScanInProgress wc) = CancelScan.Thrown e)
  /\ (gate_answered (incoming w 0) = false ->
      fst (checkScanInProgress w) = Returned (JBool true)
      \/ fst (checkScanInProgress w) = Returned JUndefined)
  /\ (forall r j,
         incoming w 0 = HttpResponse r -> ok r = true ->
         body r = Some j -> is_nullish j = false ->
         gate_answered (incoming w 0) = false ->
         fst (CancelScan.checkScanInProgress wc)
         = CancelScan.Thrown CancelScan.invalid_format).
Proof.
  intros Hsame.
  destruct (cancel_checkScanInProgress_spec wc) as (Hw & Hret & Hthrow & Hinv).
  rewrite Hsame in Hret, Hthrow, Hinv.
  split; [exact Hw |].
  split; [| split; [exact Hthrow |
                    split; [exact (launcher_gate_unanswered w) | exact Hinv]]].
  intros Hans. destruct (Hret Hans) as (r & j & Hin & Hbody & Hv).
  exists (in_progress_field j). split; [exact Hv |].
  unfold gate_answered in Hans. rewrite Hin, Hbody in Hans.
  apply andb_true_iff in Hans as [Hok Hans].
  apply andb_true_iff in Hans as [Hd _].
  assert (Hj : is_nullish j = false).
  { destruct (is_nullish j) eqn:Hj; [| reflexivity].
    rewrite (get_opt_nullish j "data" Hj) in Hd. discriminate. }
  unfold checkScanInProgress, try_catch, bind, fetch, json, lift.
  rewrite Hin, Hok. cbn. rewrite Hbody. cbn.
  rewrite (get_prop_get_opt _ _ Hj). reflexivity.
Qed.

Lemma cancel_gate_is_strict_witness :
  let wc := CancelScan.world_of [in_progress (JBool true)] unreachable [] in
  let w := world_of [in_progress (JBool true)] unreachable in
  let wc' := CancelScan.world_of [graphql_error] unreachable [] in
  let w' := world_of [graphql_error] unreachable in
  (exists v,
      fst (CancelScan.checkScanInProgress wc) = CancelScan.Returned v
      /\ fst (checkScanInProgress w) = Returned v)
  /\ (exists e, fst (CancelScan.checkScanInProgress wc') = CancelScan.Thrown e)
  /\ (fst (checkScanInProgress w') = Returned (JBool true)
      \/ fst (checkScanInProgress w') = Returned JUndefined).
Proof.
  intros wc w wc' w'.
  destruct (cancel_gate_is_strict wc w eq_refl) as (_ & Hsame & _).
  destruct (cancel_gate_is_strict wc' w' eq_refl) as (_ & _ & Hthrow & Hlaunch & _).
  split; [apply Hsame; reflexivity |].
  split; [apply Hthrow; reflexivity | apply Hlaunch; reflexivity].
Defined.

(** The mutation, by the answer it gets. *)
Lemma cancel_cancelScan_spec (scanId : string)
    (wc : CancelScan.World) :
  snd (CancelScan.cancelScan scanId wc)
  = CancelScan.advance (CancelScan.CancelScan scanId) wc
  /\ match fst (CancelScan.cancelScan scanId wc) with
     | CancelScan.Returned result =>
         truthy result = true
         /\ exists r j,
             CancelScan.incoming wc 0 = HttpResponse r /\ ok r = true
             /\ body r = Some j
             /\ result = get_opt (get_opt j "data") "cancelScan"
     | CancelScan.Thrown _ => True
     | CancelScan.Exited _ => False
     end.
Proof.
  unfold CancelScan.cancelScan, CancelScan.try_catch, CancelScan.bind,
    CancelScan.fetch, CancelScan.json, CancelScan.lift.
  destruct (CancelScan.incoming wc 0) as [msg | r]; [split; [reflexivity | exact I] |].
  destruct (body r) as [j |] eqn:Hbody; cbn; [| split; [reflexivity | exact I]].
  destruct (ok r) eqn:Hok; cbn; [| split; [reflexivity | exact I]].
  destruct (is_nullish j) eqn:Hj.
  { destruct j; try discriminate; cbn; split; try reflexivity; exact I. }
  rewrite (get_prop_get_opt _ _ Hj). cbn.
  destruct (truthy (get_opt j "data")) eqn:Hd; cbn; [| split; [reflexivity | exact I]].
  destruct (truthy (get_opt (get_opt j "data") "cancelScan")) eqn:Hc; cbn;
    [| split; [reflexivity | exact I]].
  split; [reflexivity |]. split; [exact Hc |]. now exists r, j.
Qed.

(** The mutation is sent once, carrying the given identifier, whatever
    comes back.  If [cancelScan] returns, what it returns is the truthy
    [data.cancelScan] of an HTTP-ok JSON answer, so [main] can read its
    fields; in every other case it throws. *)
Theorem cancelScan_returns_record_or_throws (scanId : string)
    (wc : CancelScan.World) :
  snd (CancelScan.cancelScan scanId wc)
  = CancelScan.advance (CancelScan.CancelScan scanId) wc
  /\ match fst (CancelScan.cancelScan scanId wc) with
     | CancelScan.Returned result =>
         truthy result = true
         /\ exists r j,
             CancelScan.incoming wc 0 = HttpResponse r /\ ok r = true
             /\ body r = Some j
             /\ result = get_opt (get_opt j "data") "cancelScan"
     | CancelScan.Thrown _ => True
     | CancelScan.Exited _ => False
     end.
Proof.
  exact (cancel_cancelScan_spec scanId wc).
Qed.

(* ===================================================================== *)
(** ** The cancellation tool: [main] *)
(* ===================================================================== *)

Lemma cancel_gate_completion (wc : CancelScan.World) :
  (exists v, CancelScan.checkScanInProgress wc
             = (CancelScan.Returned v,
                CancelScan.advance CancelScan.CheckScanInProgress wc))
  \/ (exists e, CancelScan.checkScanInProgress wc
                = (CancelScan.Thrown e,
                   CancelScan.advance CancelScan.CheckScanInProgress wc)).
Proof.
  destruct (cancel_checkScanInProgress_spec wc) as (Hw & Hret & Hthrow & _).
  destruct (CancelScan.checkScanInProgress wc) as [c w1]. cbn in *. subst w1.
  destruct (gate_answered (CancelScan.incoming wc 0)).
  - destruct (Hret eq_refl) as (r & j & _ & _ & ->). left. eexists; reflexivity.
  - destruct (Hthrow eq_refl) as (e & ->). right. eexists; reflexivity.
Qed.

Lemma cancel_cancelScan_completion (scanId : string) (wc : CancelScan.World) :
  (exists result,
      CancelScan.cancelScan scanId wc
      = (CancelScan.Returned result,
         CancelScan.advance (CancelScan.CancelScan scanId) wc))
  \/ (exists e,
         CancelScan.cancelScan scanId wc
         = (CancelScan.Thrown e,
            CancelScan.advance (CancelScan.CancelScan scanId) wc)).
Proof.
  destruct (cancel_cancelScan_spec scanId wc) as (Hw & Hc).
  destruct (CancelScan.cancelScan scanId wc) as [[result | e | code] w1];
    cbn in *; subst w1; [left | right | contradiction]; eexists; reflexivity.
Qed.

Section CancelMain.

Variable trim : string -> string.
Variable wc : CancelScan.World.

Let w1 := CancelScan.advance CancelScan.CheckScanInProgress wc.

Lemma cancel_main_gate_throws (e : Error) :
  fst (CancelScan.checkScanInProgress wc) = CancelScan.Thrown e ->
  CancelScan.main trim wc
  = (CancelScan.Exited 1,
     CancelScan.log (CancelScan.Print (CancelScan.AnErrorOccurred (message e))) w1).
Proof.
  intros Hg. unfold CancelScan.main, CancelScan.try_catch, CancelScan.bind.
  destruct (cancel_gate_completion wc) as [(v & Hgate) | (e' & Hgate)];
    rewrite Hgate in *; cbn in Hg; [discriminate |].
  injection Hg as ->. reflexivity.
Qed.

Lemma cancel_main_gate_falsy (v : JSValue) :
  fst (CancelScan.checkScanInProgress wc) = CancelScan.Returned v ->
  truthy v = false ->
  CancelScan.main trim wc
  = (CancelScan.Exited 0,
     CancelScan.log (CancelScan.Print CancelScan.NothingToCancel) w1).
Proof.
  intros Hg Hv. unfold CancelScan.main, CancelScan.try_catch, CancelScan.bind.
  destruct (cancel_gate_completion wc) as [(v' & Hgate) | (e' & Hgate)];
    rewrite Hgate in *; cbn in Hg; [| discriminate].
  injection Hg as ->. rewrite Hv. reflexivity.
Qed.

Lemma cancel_main_eof (v : JSValue) :
  fst (CancelScan.checkScanInProgress wc) = CancelScan.Returned v ->
  truthy v = true ->
  CancelScan.stdin wc = [] ->
  CancelScan.main trim wc
  = (CancelScan.Exited 1,
     CancelScan.log
       (CancelScan.Print (CancelScan.AnErrorOccurred "Failed to read input"))
       (CancelScan.log CancelScan.Prompt w1)).
Proof.
  intros Hg Hv Hin. unfold CancelScan.main, CancelScan.try_catch, CancelScan.bind.
  destruct (cancel_gate_completion wc) as [(v' & Hgate) | (e' & Hgate)];
    rewrite Hgate in *; cbn in Hg; [| discriminate].
  injection Hg as ->. rewrite Hv. cbn.
  unfold CancelScan.promptForScanId. cbn. rewrite Hin. reflexivity.
Qed.

Lemma cancel_main_mutation_throws (v : JSValue) (line : string)
    (rest : list string) (e : Error) :
  fst (CancelScan.checkScanInProgress wc) = CancelScan.Returned v ->
  truthy v = true ->
  CancelScan.stdin wc = line :: rest ->
  fst (CancelScan.cancelScan (trim line) (CancelScan.prompted rest w1))
  = CancelScan.Thrown e ->
  CancelScan.main trim wc
  = (CancelScan.Exited 1,
     CancelScan.log (CancelScan.Print (CancelScan.AnErrorOccurred (message e)))
       (CancelScan.advance (CancelScan.CancelScan (trim line))
          (CancelScan.prompted rest w1))).
Proof.
  intros Hg Hv Hin Hc. unfold CancelScan.main, CancelScan.try_catch, CancelScan.bind.
  destruct (cancel_gate_completion wc) as [(v' & Hgate) | (e' & Hgate)];
    rewrite Hgate in *; cbn in Hg; [| discriminate].
  injection Hg as ->. rewrite Hv. cbn.
  unfold CancelScan.promptForScanId. cbn. rewrite Hin.
  fold w1.
  destruct (cancel_cancelScan_completion (trim line) (CancelScan.prompted rest w1))
    as [(result & Hcancel) | (e' & Hcancel)];
    rewrite Hcancel in *; cbn in Hc; [discriminate |].
  injection Hc as ->. reflexivity.
Qed.

End CancelMain.

Lemma no_error_text (error : JSValue) :
  truthy error = true ->
  CancelScan.js_includes error "No active scan found in DB" = inr false ->
  CancelScan.js_length_positive error = false ->
  error = JArr [].
Proof.
  destruct error as [| | b | n | s | items | fields]; cbn; try discriminate.
  - intros ->. discriminate.
  - destruct items; [reflexivity | discriminate].
Qed.

Ltac report_outcome :=
  first [ left; reflexivity
        | right; split; [reflexivity | do 2 eexists; reflexivity] ].

Ltac report_prints :=
  let x := fresh "x" in
  let Hx := fresh "Hx" in
  intros x Hx; cbn in Hx;
  repeat (destruct Hx as [Hx | Hx]; [try discriminate |]);
  try (left; exact Hx).

Ltac report_leaf :=
  cbn; split; [report_outcome |];
  split; [reflexivity |];
  split; [reflexivity |];
  report_prints.

(** What [main] does once the mutation has returned a record. *)
Lemma cancel_main_report_phase (trim : string -> string)
    (wc : CancelScan.World) (v : JSValue) (line : string) (rest : list string)
    (result : JSValue) :
  let w1 := CancelScan.advance CancelScan.CheckScanInProgress wc in
  let w3 := CancelScan.advance (CancelScan.CancelScan (trim line))
              (CancelScan.prompted rest w1) in
  let run := CancelScan.main trim wc in
  fst (CancelScan.checkScanInProgress wc) = CancelScan.Returned v ->
  truthy v = true ->
  CancelScan.stdin wc = line :: rest ->
  fst (CancelScan.cancelScan (trim line) (CancelScan.prompted rest w1))
  = CancelScan.Returned result ->
  (fst run = CancelScan.Returned tt
   \/ (fst run = CancelScan.Exited 1
       /\ exists msg before,
           CancelScan.events (snd run)
           = CancelScan.Print (CancelScan.AnErrorOccurred msg) :: before))
  /\ CancelScan.requests (CancelScan.events (snd run))
     = CancelScan.requests (CancelScan.events w3)
  /\ CancelScan.stdin (snd run) = rest
  /\ (forall id,
         In (CancelScan.Print (CancelScan.SuccessfullyCancelled id))
            (CancelScan.events (snd run)) ->
         In (CancelScan.Print (CancelScan.SuccessfullyCancelled id))
            (CancelScan.events wc)
         \/ (truthy (get_opt result "isCanceled") = true
             /\ (truthy (get_opt result "error") = false
                 \/ get_opt result "error" = JArr []))).
Proof.
  intros w1 w3 run Hg Hv Hin Hc. subst run.
  unfold CancelScan.main, CancelScan.try_catch, CancelScan.bind.
  destruct (cancel_gate_completion wc) as [(v' & Hgate) | (e' & Hgate)];
    rewrite Hgate in *; cbn in Hg; [| discriminate].
  injection Hg as ->. rewrite Hv. cbn.
  unfold CancelScan.promptForScanId. cbn. rewrite Hin.
  fold w1.
  destruct (cancel_cancelScan_completion (trim line) (CancelScan.prompted rest w1))
    as [(result' & Hcancel) | (e' & Hcancel)];
    rewrite Hcancel in *; cbn in Hc; [| discriminate].
  injection Hc as ->. fold w3.
  unfold CancelScan.print, CancelScan.exit, CancelScan.ret, CancelScan.lift,
    CancelScan.throw.
  destruct (truthy (get_opt result "isCanceled")) eqn:Hcan.
  2:{ report_leaf. }
  destruct (truthy (get_opt result "error")) eqn:Herr.
  2:{ cbn. destruct (truthy (get_opt result "previousScanId"));
        report_leaf; right; (split; [reflexivity | now left]). }
  destruct (CancelScan.js_includes (get_opt result "error")
              "No active scan found in DB") as [e | [|]] eqn:Hinc.
  - report_leaf.
  - cbn. destruct (truthy (get_opt result "previousScanId")); report_leaf.
  - cbn.
    destruct (CancelScan.js_length_positive (get_opt result "error")) eqn:Hlen;
      cbn; destruct (truthy (get_opt result "previousScanId"));
      report_leaf; right; (split; [reflexivity | right]);
      now apply no_error_text.
Qed.

(** When the gate says that no scan is in progress (it returns a falsy
    value), the tool reports that there is nothing to cancel and exits with
    code 0: it has sent the gate's query only, and has not touched standard
    input. *)
Theorem cancel_main_nothing_to_cancel (trim : string -> string)
    (wc : CancelScan.World) (v : JSValue) :
  fst (CancelScan.checkScanInProgress wc) = CancelScan.Returned v ->
  truthy v = false ->
  let run := CancelScan.main trim wc in
  fst run = CancelScan.Exited 0
  /\ CancelScan.events (snd run)
     = CancelScan.Print CancelScan.NothingToCancel
       :: CancelScan.Fetch CancelScan.CheckScanInProgress :: CancelScan.events wc
  /\ CancelScan.stdin (snd run) = CancelScan.stdin wc.
Proof.
  intros Hg Hv run. subst run.
  rewrite (cancel_main_gate_falsy trim wc v Hg Hv). now repeat split.
Qed.

Lemma cancel_main_nothing_to_cancel_witness :
  let wc := CancelScan.world_of [in_progress (JBool false)] unreachable
              ["abc-123"%string] in
  let run := CancelScan.main (fun s => s) wc in
  fst run = CancelScan.Exited 0
  /\ CancelScan.events (snd run)
     = CancelScan.Print CancelScan.NothingToCancel
       :: CancelScan.Fetch CancelScan.CheckScanInProgress :: CancelScan.events wc
  /\ CancelScan.stdin (snd run) = CancelScan.stdin wc.
Proof.
  intros wc.
  apply (cancel_main_nothing_to_cancel (fun s => s) wc (JBool false));
    reflexivity.
Defined.

(** When a scan is in progress but standard input is at its end, the tool
    reports the failure to read and exits with code 1 without sending the
    mutation. *)
Theorem cancel_main_no_input (trim : string -> string)
    (wc : CancelScan.World) (v : JSValue) :
  fst (CancelScan.checkScanInProgress wc) = CancelScan.Returned v ->
  truthy v = true ->
  CancelScan.stdin wc = [] ->
  let run := CancelScan.main trim wc in
  fst run = CancelScan.Exited 1
  /\ CancelScan.events (snd run)
     = CancelScan.Print (CancelScan.AnErrorOccurred "Failed to read input")
       :: CancelScan.Prompt
       :: CancelScan.Fetch CancelScan.CheckScanInProgress :: CancelScan.events wc.
Proof.
  intros Hg Hv Hin run. subst run.
  rewrite (cancel_main_eof trim wc v Hg Hv Hin). now split.
Qed.

Lemma cancel_main_no_input_witness :
  let wc := CancelScan.world_of [in_progress (JBool true)] unreachable [] in
  let run := CancelScan.main (fun s => s) wc in
  fst run = CancelScan.Exited 1
  /\ CancelScan.events (snd run)
     = CancelScan.Print (CancelScan.AnErrorOccurred "Failed to read input")
       :: CancelScan.Prompt
       :: CancelScan.Fetch CancelScan.CheckScanInProgress :: CancelScan.events wc.
Proof.
  intros wc.
  apply (cancel_main_no_input (fun s => s) wc (JBool true)); reflexivity.
Defined.

(** The tool never lets an exception escape.  It ends in one of three
    ways: it returns; it exits with code 0 having reported that there is
    nothing to cancel; or it exits with code 1 having reported an error. *)
Theorem cancel_main_never_throws (trim : string -> string)
    (wc : CancelScan.World) :
  let run := CancelScan.main trim wc in
  fst run = CancelScan.Returned tt
  \/ (fst run = CancelScan.Exited 0
      /\ exists before,
          CancelScan.events (snd run)
          = CancelScan.Print CancelScan.NothingToCancel :: before)
  \/ (fst run = CancelScan.Exited 1
      /\ exists msg before,
          CancelScan.events (snd run)
          = CancelScan.Print (CancelScan.AnErrorOccurred msg) :: before).
Proof.
  intros run. subst run.
  destruct (cancel_gate_completion wc) as [(v & Hgate) | (e & Hgate)].
  2:{ right. right.
      rewrite (cancel_main_gate_throws trim wc e) by now rewrite Hgate.
      split; [reflexivity | do 2 eexists; reflexivity]. }
  assert (Hg : fst (CancelScan.checkScanInProgress wc) = CancelScan.Returned v)
    by now rewrite Hgate.
  destruct (truthy v) eqn:Hv.
  2:{ right. left. rewrite (cancel_main_gate_falsy trim wc v Hg Hv).
      split; [reflexivity | eexists; reflexivity]. }
  destruct (CancelScan.stdin wc) as [| line rest] eqn:Hin.
  { right. right. rewrite (cancel_main_eof trim wc v Hg Hv Hin).
    split; [reflexivity | do 2 eexists; reflexivity]. }
  destruct (cancel_cancelScan_completion (trim line)
              (CancelScan.prompted rest
                 (CancelScan.advance CancelScan.CheckScanInProgress wc)))
    as [(result & Hc) | (e & Hc)].
  - destruct (cancel_main_report_phase trim wc v line rest result Hg Hv Hin)
      as ([Hret | Hexit] & _); [now rewrite Hc | now left | now right; right].
  - right. right.
    rewrite (cancel_main_mutation_throws trim wc v line rest e Hg Hv Hin)
      by now rewrite Hc.
    split; [reflexivity | do 2 eexists; reflexivity].
Qed.

(** The requests of the tool.  It sends the gate's query first.  It sends
    the mutation at most once, only when the gate has returned a truthy
    value and a line could be read, and the identifier it sends is that
    first line, trimmed, whatever it is; the lines after it stay unread.
    Otherwise the query is all it sends. *)
Theorem cancel_main_requests (trim : string -> string)
    (wc : CancelScan.World) :
  let run := CancelScan.main trim wc in
  CancelScan.requests (CancelScan.events (snd run))
  = CancelScan.CheckScanInProgress :: CancelScan.requests (CancelScan.events wc)
  \/ exists v line rest,
      fst (CancelScan.checkScanInProgress wc) = CancelScan.Returned v
      /\ truthy v = true
      /\ CancelScan.stdin wc = line :: rest
      /\ CancelScan.requests (CancelScan.events (snd run))
         = CancelScan.CancelScan (trim line)
           :: CancelScan.CheckScanInProgress
           :: CancelScan.requests (CancelScan.events wc)
      /\ CancelScan.stdin (snd run) = rest.
Proof.
  intros run. subst run.
  destruct (cancel_gate_completion wc) as [(v & Hgate) | (e & Hgate)].
  2:{ left. rewrite (cancel_main_gate_throws trim wc e) by now rewrite Hgate.
      reflexivity. }
  assert (Hg : fst (CancelScan.checkScanInProgress wc) = CancelScan.Returned v)
    by now rewrite Hgate.
  destruct (truthy v) eqn:Hv.
  2:{ left. rewrite (cancel_main_gate_falsy trim wc v Hg Hv). reflexivity. }
  destruct (CancelScan.stdin wc) as [| line rest] eqn:Hin.
  { left. rewrite (cancel_main_eof trim wc v Hg Hv Hin). reflexivity. }
  right. exists v, line, rest. repeat split; try assumption.
  - destruct (cancel_cancelScan_completion (trim line)
                (CancelScan.prompted rest
                   (CancelScan.advance CancelScan.CheckScanInProgress wc)))
      as [(result & Hc) | (e & Hc)].
    + destruct (cancel_main_report_phase trim wc v line rest result Hg Hv Hin)
        as (_ & Hreq & _); [now rewrite Hc |].
      rewrite Hreq. reflexivity.
    + rewrite (cancel_main_mutation_throws trim wc v line rest e Hg Hv Hin)
        by now rewrite Hc.
      reflexivity.
  - destruct (cancel_cancelScan_completion (trim line)
                (CancelScan.prompted rest
                   (CancelScan.advance CancelScan.CheckScanInProgress wc)))
      as [(result & Hc) | (e & Hc)].
    + destruct (cancel_main_report_phase trim wc v line rest result Hg Hv Hin)
        as (_ & _ & Hrest & _); [now rewrite Hc |]. exact Hrest.
    + rewrite (cancel_main_mutation_throws trim wc v line rest e Hg Hv Hin)
        by now rewrite Hc.
      reflexivity.
Qed.

(** The tool reports a successful cancellation only for a record returned
    by the mutation whose [isCanceled] is truthy and that carries no error
    text: its [error] is falsy (absent, [null], empty) or an empty array.
    It never does when the request failed, nor when the record has a
    non-empty error string. *)
Theorem cancel_main_success_only_without_error (trim : string -> string)
    (wc : CancelScan.World) (id : JSValue) :
  In (CancelScan.Print (CancelScan.SuccessfullyCancelled id))
     (CancelScan.events (snd (CancelScan.main trim wc))) ->
  In (CancelScan.Print (CancelScan.SuccessfullyCancelled id))
     (CancelScan.events wc)
  \/ exists line rest result,
      CancelScan.stdin wc = line :: rest
      /\ fst (CancelScan.cancelScan (trim line)
                (CancelScan.prompted rest
                   (CancelScan.advance CancelScan.CheckScanInProgress wc)))
         = CancelScan.Returned result
      /\ truthy (get_opt result "isCanceled") = true
      /\ (truthy (get_opt result "error") = false
          \/ get_opt result "error" = JArr []).
Proof.
  destruct (cancel_gate_completion wc) as [(v & Hgate) | (e & Hgate)].
  2:{ rewrite (cancel_main_gate_throws trim wc e) by now rewrite Hgate.
      cbn. intros [H | [H | H]]; try discriminate. now left. }
  assert (Hg : fst (CancelScan.checkScanInProgress wc) = CancelScan.Returned v)
    by now rewrite Hgate.
  destruct (truthy v) eqn:Hv.
  2:{ rewrite (cancel_main_gate_falsy trim wc v Hg Hv).
      cbn. intros [H | [H | H]]; try discriminate. now left. }
  destruct (CancelScan.stdin wc) as [| line rest] eqn:Hin.
  { rewrite (cancel_main_eof trim wc v Hg Hv Hin).
    cbn. intros [H | [H | [H | H]]]; try discriminate. now left. }
  destruct (cancel_cancelScan_completion (trim line)
              (CancelScan.prompted rest
                 (CancelScan.advance CancelScan.CheckScanInProgress wc)))
    as [(result & Hc) | (e & Hc)].
  - destruct (cancel_main_report_phase trim wc v line rest result Hg Hv Hin)
      as (_ & _ & _ & Hsucc); [now rewrite Hc |].
    intros H. destruct (Hsucc id H) as [Hold | Hnew]; [now left |].
    right. exists line, rest, result. split; [reflexivity |].
    split; [now rewrite Hc | exact Hnew].
  - rewrite (cancel_main_mutation_throws trim wc v line rest e Hg Hv Hin)
      by now rewrite Hc.
    cbn. intros [H | [H | [H | [H | H]]]]; try discriminate. now left.
Qed.

Lemma cancel_main_success_only_without_error_witness :
  let wc := CancelScan.world_of
              [in_progress (JBool true);
               CancelScan.cancelled [("isCanceled", JBool true);
                                     ("scanId", JStr "abc-123")]]
              unreachable ["abc-123"%string] in
  In (CancelScan.Print (CancelScan.SuccessfullyCancelled (JStr "abc-123")))
     (CancelScan.events (snd (CancelScan.main (fun s => s) wc)))
  /\ (In (CancelScan.Print (CancelScan.SuccessfullyCancelled (JStr "abc-123")))
        (CancelScan.events wc)
      \/ exists line rest result,
          CancelScan.stdin wc = line :: rest
          /\ fst (CancelScan.cancelScan line
                    (CancelScan.prompted rest
                       (CancelScan.advance CancelScan.CheckScanInProgress wc)))
             = CancelScan.Returned result
          /\ truthy (get_opt result "isCanceled") = true
          /\ (truthy (get_opt result "error") = false
              \/ get_opt result "error" = JArr [])).
Proof.
  intros wc.
  assert (H : In (CancelScan.Print
                    (CancelScan.SuccessfullyCancelled (JStr "abc-123")))
                 (CancelScan.events (snd (CancelScan.main (fun s => s) wc))))
    by (left; reflexivity).
  split; [exact H |].
  exact (cancel_main_success_only_without_error (fun s => s) wc (JStr "abc-123") H).
Defined.

(* ===================================================================== *)
(** ** One result, and no probe after it *)
(* ===================================================================== *)

Section VerdictFacts.

Variable scanID : JSValue.
Variables maxAttempts intervalMs initializationTimeoutMs : Z.
Variable w0 : World.

Let T := maxConsecutiveNullResponses intervalMs initializationTimeoutMs.
Let after := state_after scanID maxAttempts intervalMs initializationTimeoutMs.
Let iteration := poll_iteration scanID intervalMs initializationTimeoutMs.

(** After [k] passes that fell through, the next pass returns exactly when
    the transition rule gives a result for the next observation, and
    returns that result. *)
Lemma iteration_follows_verdict (k : nat) (st : PollingState) (w : World) :
  after k w0 = Some (st, w) ->
  match verdict T (observations w0 k) (observation w0 k) with
  | Some r =>
      exists st', iteration st w = (Returned (Return r st'), probed scanID w)
  | None =>
      exists st',
        iteration st w
        = (Returned (Continue st'), paused intervalMs (probed scanID w))
  end.
Proof.
  intros Hk. unfold iteration.
  rewrite poll_iteration_spec, (state_after_observation _ _ _ _ _ _ _ _ Hk).
  destruct (state_after_inv _ _ _ _ _ _ _ _ Hk) as [_ _ Hc Hs _ _ _ _].
  unfold verdict, T. rewrite <- Hs, <- Hc.
  destruct (observation w0 k); try (eexists; reflexivity).
  destruct (scanStarted st); [eexists; reflexivity |].
  destruct (_ <=? _); eexists; reflexivity.
Qed.

Lemma continue_undecided (k : nat) (st st' : PollingState) (w w' : World) :
  after k w0 = Some (st, w) ->
  iteration st w = (Returned (Continue st'), w') ->
  verdict T (observations w0 k) (observation w0 k) = None.
Proof.
  intros Hk Hit. pose proof (iteration_follows_verdict k st w Hk) as H.
  destruct (verdict T _ _) as [r |]; [| reflexivity].
  destruct H as (st'' & H). rewrite H in Hit. discriminate.
Qed.

Lemma return_decided (k : nat) (st st' : PollingState) (r : PollResult)
    (w w' : World) :
  after k w0 = Some (st, w) ->
  iteration st w = (Returned (Return r st'), w') ->
  verdict T (observations w0 k) (observation w0 k) = Some r.
Proof.
  intros Hk Hit. pose proof (iteration_follows_verdict k st w Hk) as H.
  destruct (verdict T _ _) as [r' |]; destruct H as (st'' & H);
    rewrite H in Hit; [| discriminate].
  now injection Hit as -> _ _.
Qed.

(** While the session is polling, no observation made so far has produced
    a result. *)
Lemma state_after_undecided (k : nat) :
  forall st w,
    after k w0 = Some (st, w) ->
    forall i, (i < k)%nat ->
              verdict T (observations w0 i) (observation w0 i) = None.
Proof.
  induction k as [| k IH]; intros st' w' Hk i Hi; [lia |].
  destruct (state_after_S _ _ _ _ _ _ _ _ Hk) as (st & w & Hprev & _ & Hit).
  destruct (Nat.eq_dec i k) as [-> | Hne].
  - now apply continue_undecided with st st' w w'.
  - apply (IH _ _ Hprev). lia.
Qed.

End VerdictFacts.

(** C8. Every session produces exactly one terminal result, one of the four
    outcomes: the polling function returns, and returns that result.  The
    session ends on producing it.  The requests it sent are as many as the
    final attempts count, each a status probe for its own scan; it has
    consumed exactly that many answers of the endpoint; and unless the
    budget ran out, the last thing it did was a probe.  That last probe is
    the one whose observation produced the result: by the transition rule
    no observation before the last one produces a result, and either the
    last one produces the result returned, or none does, the budget is
    used up and the result is [max_attempts_reached].  (The part on the
    transition rule is for an interval other than 0, for which the
    threshold is the ceiling of the quotient.) *)
Theorem session_one_outcome_no_probe_after (scanID : JSValue)
    (maxAttempts intervalMs initializationTimeoutMs : Z) (w0 : World) :
  exists r st w' new,
    pollUntilScanComplete scanID maxAttempts intervalMs
      initializationTimeoutMs w0 = (Returned (r, st), w')
    /\ In r [Completed; Cancelled; InitializationTimeout; MaxAttemptsReached]
    /\ events w' = new ++ events w0
    /\ fetch_count new = attempts st
    /\ (forall n, incoming w' n = incoming w0 (Z.to_nat (attempts st) + n))
    /\ Forall (session_event scanID intervalMs) new
    /\ (r = MaxAttemptsReached
        \/ exists earlier, new = Fetch (IsStillScanningQuery scanID) :: earlier)
    /\ (intervalMs <> 0 ->
        let T := maxConsecutiveNullResponses intervalMs initializationTimeoutMs in
        exists n,
          attempts st = Z.of_nat n
          /\ (forall i, (S i < n)%nat ->
                        verdict T (observations w0 i) (observation w0 i) = None)
          /\ ((r = MaxAttemptsReached
               /\ Z.of_nat n = Z.max 0 maxAttempts
               /\ forall i, (i < n)%nat ->
                            verdict T (observations w0 i) (observation w0 i)
                            = None)
              \/ (exists k,
                     n = S k
                     /\ verdict T (observations w0 k) (observation w0 k)
                        = Some r
                     /\ exists earlier,
                         new = Fetch (IsStillScanningQuery scanID) :: earlier))).
Proof.
  destruct (session_end scanID maxAttempts intervalMs initializationTimeoutMs w0)
    as (k & st & w & Hk & Hend).
  pose proof (state_after_undecided _ _ _ _ _ _ _ _ Hk) as Hund.
  destruct (state_after_inv _ _ _ _ _ _ _ _ Hk)
    as [Ha Hb _ _ _ _ Hin (new & Hev & Hcnt & Hall)].
  destruct Hend as [[Hge Hrun] | (Hlt & r & st' & Hit & Hatt & Hrun)].
  - exists MaxAttemptsReached, st, w, new. split; [exact Hrun |].
    split; [cbn; tauto |]. split; [exact Hev |]. split; [lia |].
    split; [intros n; rewrite Hin, Ha, Nat2Z.id; reflexivity |].
    split; [exact Hall |]. split; [now left |].
    intros _ T. exists k. split; [exact Ha |].
    split; [intros i Hi; apply Hund; lia |].
    left. split; [reflexivity |]. split; [lia | exact Hund].
  - exists r, st', (probed scanID w), (Fetch (IsStillScanningQuery scanID) :: new).
    split; [exact Hrun |]. split.
    { apply poll_iteration_return_cases in Hit.
      destruct Hit as [(-> & _) | [(-> & _) | (-> & _)]]; cbn; tauto. }
    split; [cbn; now rewrite Hev |].
    split; [rewrite fetch_count_cons; cbn [is_fetch]; lia |].
    split; [intros n; cbn; rewrite Hin, Hatt, Ha; f_equal; lia |].
    split; [constructor; [now left | exact Hall] |].
    split; [right; now exists new |].
    intros _ T. exists (S k). split; [lia |].
    split; [intros i Hi; apply Hund; lia |].
    right. exists k. split; [reflexivity |].
    split; [| now exists new].
    now apply (return_decided _ _ _ _ _ _ _ _ _ _ _ Hk Hit).
Qed.

Lemma session_one_outcome_no_probe_after_witness :
  let w0 := world_of [answer (JBool true); answer (JBool false)]
              (answer (JBool true)) in
  exists r st w' new n,
    pollUntilScanComplete (JStr "scan-1") 5 1 3 w0 = (Returned (r, st), w')
    /\ events w' = new ++ events w0
    /\ fetch_count new = attempts st
    /\ attempts st = Z.of_nat n
    /\ (forall i, (S i < n)%nat ->
                  verdict 3 (observations w0 i) (observation w0 i) = None)
    /\ ((r = MaxAttemptsReached /\ Z.of_nat n = Z.max 0 5)
        \/ exists k,
            n = S k
            /\ verdict 3 (observations w0 k) (observation w0 k) = Some r).
Proof.
  intros w0.
  destruct (session_one_outcome_no_probe_after (JStr "scan-1") 5 1 3 w0)
    as (r & st & w' & new & Hrun & _ & Hev & Hcnt & _ & _ & _ & Hdec).
  destruct (Hdec ltac:(lia)) as (n & Hn & Hbefore & Hlast).
  exists r, st, w', new, n.
  split; [exact Hrun |]. split; [exact Hev |]. split; [exact Hcnt |].
  split; [exact Hn |]. split; [exact Hbefore |].
  destruct Hlast as [(Hr & Hmax & _) | (k & Hk & Hv & _)].
  - left. split; assumption.
  - right. exists k. split; assumption.
Defined.
